(** * web3-utils: the RPC synchronisation check and the mempool watcher

    A shallow embedding of the functions of [src/index.js], first of all
    [checkRpcSync], [waitForTx] and
    [waitForTxUsingSubscribePendingTransactions], and the properties of these
    functions that the specification states.

    Conventions of the embedding.
    - A block height is a JavaScript Number holding an integer; it is a [Z]
      here (heights stay far below 2^53, where Number arithmetic is exact).
    - An endpoint is the string the caller passes ([@param {String} mainRpc]).
    - A string is the sequence of its bytes.
    - What the functions take from Node and web3 is a parameter
      ([Libraries]): [new Web3], which throws for a string it finds no
      provider in, [https.request], [JSON.parse] and the like. The disk, the
      network and the environment are inputs.
    - JavaScript arrays live in a store and are passed by reference.
    - The network is an oracle: the outcome of the n-th height request.
    - [console.log] appends a line to the console of the world; a template
      literal is the list of its pieces, a [chalk] call is a coloured piece.
    - A call of [checkRpcSync] runs with no other code touching its array
      while it is suspended at its [await].
    - A watch session is a state machine driven by the events of the
      JavaScript event loop: what the feed emits and how the awaited promises
      of the listeners settle, in the order in which they are delivered.
    - The functions are the ones of lines 257-310 and 394-431; the module
      exports them behind a wrapper that first awaits [beforeAll()]
      (lines 447-457).
    - The other functions of the file follow: the setup of the module's web3
      and the export wrapper, the BscScan requests, the ABI cache, the search
      of an ABI and the raw JSON-RPC request.

    The definitions come first, the lemmas and theorems after them. *)

From Stdlib Require Import ZArith DecimalString Ascii.
From stdpp Require Import gmap strings list.

Local Open Scope string_scope.
Local Open Scope list_scope.
Local Open Scope Z_scope.

(** ** JavaScript values the functions handle *)

Module JS.

(** The Numbers that occur: integers, and the infinities [Math.max] and a
    subtraction from it can produce. *)
Inductive number := NegInfinity | Int (z : Z) | PosInfinity.

(** [a < b] on Numbers. *)
Definition number_ltb (a b : number) : bool :=
  match a, b with
  | NegInfinity, NegInfinity => false
  | NegInfinity, _ => true
  | Int x, Int y => x <? y
  | Int _, PosInfinity => true
  | _, _ => false
  end.

(** [a === b] on Numbers. *)
Definition number_eqb (a b : number) : bool :=
  match a, b with
  | NegInfinity, NegInfinity => true
  | Int x, Int y => x =? y
  | PosInfinity, PosInfinity => true
  | _, _ => false
  end.

(** [h - m] for a finite [h]. *)
Definition number_rsub (h : Z) (m : number) : number :=
  match m with
  | NegInfinity => PosInfinity
  | Int z => Int (h - z)
  | PosInfinity => NegInfinity
  end.

(** [m - 1]. *)
Definition number_pred (m : number) : number :=
  match m with
  | Int z => Int (z - 1)
  | inf => inf
  end.

(** [String(z)] for an integer. *)
Definition Z_to_string (z : Z) : string := NilZero.string_of_int (Z.to_int z).

(** [String(n)], as a template literal renders a Number. *)
Definition number_to_string (n : number) : string :=
  match n with
  | NegInfinity => "-Infinity"
  | Int z => Z_to_string z
  | PosInfinity => "Infinity"
  end.

(** An entry of [blocks] after line 266: a height, or [null] ([None]). *)
Abbreviation block := (option Z).

(** [ToNumber], applied by [Math.max] to each argument: [null] becomes 0. *)
Definition ToNumber (b : block) : number :=
  match b with
  | None => Int 0
  | Some h => Int h
  end.

(** [Math.max(...args)]: starts from [-Infinity] and keeps the largest of the
    arguments coerced to Numbers. *)
Definition Math_max (args : list block) : number :=
  fold_left (fun highest b => if number_ltb highest (ToNumber b) then ToNumber b else highest)
            args NegInfinity.

(** What [throw] carries. *)
Inductive exn :=
  | Error (message : string)
  | TypeError (message : string)
  | AssertionError.

(** A string is the sequence of its bytes; [ascii_only] tells the strings
    that hold ASCII characters only. *)
Fixpoint ascii_only (s : string) : bool :=
  match s with
  | EmptyString => true
  | String c s' => (nat_of_ascii c <? 128)%nat && ascii_only s'
  end.

(** What [String.prototype.toLowerCase] does to an ASCII character: the
    letters A-Z become a-z. *)
Definition lower_ascii (c : ascii) : ascii :=
  let n := nat_of_ascii c in
  if ((65 <=? n) && (n <=? 90))%nat then ascii_of_nat (n + 32) else c.

Fixpoint lower_string (s : string) : string :=
  match s with
  | EmptyString => EmptyString
  | String c s' => String (lower_ascii c) (lower_string s')
  end.

End JS.
Import JS.

(** ** The libraries

    What the functions take from Node and web3, which are not part of the
    repository: they are parameters of the embedding. *)

Local Set Warnings "-register-all".

(** What [JSON.parse] yields. A Number is kept as its canonical text. *)
Inductive json :=
  | JNull
  | JBool (b : bool)
  | JNum (text : string)
  | JStr (s : string)
  | JArr (items : list json)
  | JObj (fields : list (string * json)).

(** A value found where a contract address is expected. *)
Inductive addressVal :=
  | NullAddress                  (* [null] *)
  | Address (s : string)         (* a string *)
  | NotAddress (text : string).  (* any other value, with what [String] makes of it *)

Class Libraries := {
  (** [new Web3(url)]: the exception it throws, if it throws (web3 throws
      for a string in which it finds no provider, one that is neither an
      http(s) nor a ws(s) URL). *)
  Web3_new : string -> option exn;
  (** [Web3.utils.isHexStrict]. *)
  isHexStrict : addressVal -> bool;
  (** [new web3.eth.Contract(abi, address)]: the exception it throws, if it
      throws. *)
  Contract_new : json -> addressVal -> option exn;
  (** [JSON.parse(text)]; [None] is a [SyntaxError]. *)
  JSON_parse : string -> option json;
  (** [JSON.stringify(value, null, indent)]. *)
  JSON_stringify : json -> nat -> string;
  (** [path.join(dir, file)]. *)
  path_join : string -> string -> string;
  (** [web3.eth.abi.encodeFunctionSignature(methodAbi)]. *)
  encodeFunctionSignature : json -> exn + string;
  (** [https.request(url, options, callback)]: the exception it throws, if it
      throws (an URL that does not parse, a protocol other than [https:]). *)
  https_request : string -> option exn;
  (** [String.prototype.toLowerCase] on a string that holds characters beyond
      ASCII. *)
  String_toLowerCase : string -> string
}.

(** [String.prototype.toLowerCase]: computed on the strings of ASCII
    characters, the library's own on the others. *)
Definition toLowerCase `{Libraries} (s : string) : string :=
  if ascii_only s then lower_string s else String_toLowerCase s.

(** ** The console *)

Inductive color := red | green | yellow | white | gray.

(** A piece of a logged template literal: plain text, or [chalk.<color>(text)]. *)
Inductive piece := Text (s : string) | Chalk (c : color) (s : string).

Abbreviation line := (list piece).

(** ** The world [checkRpcSync] runs in *)

Abbreviation endpoint := string.
Abbreviation loc := positive.

(** One entry of the result of [Promise.allSettled]. *)
Inductive settled := fulfilled (value : Z) | rejected.

Record world := World {
  heap : gmap loc (list endpoint);   (* the arrays, by reference *)
  console : list line;               (* the lines logged so far *)
  requests : list endpoint           (* the getBlockNumber requests issued so far *)
}.

(** The outcome of the n-th height request, sent to the given endpoint. *)
Definition network := nat -> endpoint -> settled.

(** State and exceptions. *)
Definition M (A : Type) : Type := world -> world * (exn + A).

Global Instance M_ret : MRet M := fun A a w => (w, inr a).
Global Instance M_bind : MBind M := fun A B k m w =>
  match m w with
  | (w', inl e) => (w', inl e)
  | (w', inr a) => k a w'
  end.

Definition throw {A} (e : exn) : M A := fun w => (w, inl e).

Definition console_log (l : line) : M unit := fun w =>
  (World (heap w) (console w ++ [l]) (requests w), inr tt).

(** Reads the array behind a reference. A reference that holds no array
    stands for an argument that is not an array: using it throws. *)
Definition load (l : loc) : M (list endpoint) := fun w =>
  match heap w !! l with
  | Some a => (w, inr a)
  | None => (w, inl (TypeError "not an array"))
  end.

(** [rpcs.push(x)]: the array behind the reference grows at its end. *)
Definition push (l : loc) (x : endpoint) : M unit := fun w =>
  match heap w !! l with
  | Some a => (World (<[l := a ++ [x]]> (heap w)) (console w) (requests w), inr tt)
  | None => (w, inl (TypeError "not an array"))
  end.

(** The default parameter [rpcs = []]: an omitted argument is a fresh array. *)
Definition default_array (arg : option loc) : M loc := fun w =>
  match arg with
  | Some l => (w, inr l)
  | None =>
      let l := fresh (dom (heap w)) in
      (World (<[l := []]> (heap w)) (console w) (requests w), inr l)
  end.

Section CheckRpcSync.
Context `{Libraries}.

(** [(new Web3(rpc)).eth.getBlockNumber()], the callback of line 264.
    [new Web3(rpc)] throws for a string it finds no provider in, and that
    exception leaves the callback; otherwise the request is issued, and the
    promise is paired here with the way it settles. *)
Definition getBlockNumber (net : network) (rpc : endpoint) : M settled := fun w =>
  match Web3_new rpc with
  | Some e => (w, inl e)
  | None =>
      (World (heap w) (console w) (requests w ++ [rpc]),
       inr (net (length (requests w)) rpc))
  end.

(** [rpcs.map(f)] for an effectful [f]. *)
Fixpoint mapM {A B} (f : A -> M B) (l : list A) : M (list B) :=
  match l with
  | [] => mret []
  | x :: l' => y ← f x; ys ← mapM f l'; mret (y :: ys)
  end.

(** [rpcs.includes(x)]. *)
Definition includes (a : list endpoint) (x : endpoint) : bool :=
  existsb (String.eqb x) a.

(** [rpcs.indexOf(x)]; [None] is -1. *)
Fixpoint indexOf (a : list endpoint) (x : endpoint) : option nat :=
  match a with
  | [] => None
  | y :: a' => if String.eqb y x then Some 0%nat else S <$> indexOf a' x
  end.

(** ** checkRpcSync (lines 257-310) *)

(** Line 266: [r.status === 'fulfilled' ? r.value : null]. *)
Definition valueOrNull (r : settled) : block :=
  match r with
  | fulfilled v => Some v
  | rejected => None
  end.

(** Lines 281-291: the [switch] that picks the colour of a height. *)
Definition blockColor (h : Z) (maxBlock : number) : color :=
  if number_eqb (Int h) maxBlock then green
  else if number_eqb (Int h) (number_pred maxBlock) then yellow
  else red.

(** Line 294. *)
Definition rpcColor (rpc mainRpc : endpoint) : color :=
  if String.eqb rpc mainRpc then white else gray.

(** Lines 273-296: the line the loop logs for one endpoint. *)
Definition statusLine (maxBlock : number) (mainRpc : endpoint)
    (rpc : endpoint) (b : block) : line :=
  match b with
  | None => [Chalk red "null"; Text " - "; Text rpc]
  | Some h =>
      [Chalk (blockColor h maxBlock) (Z_to_string h);
       Text " ("; Text (number_to_string (number_rsub h maxBlock)); Text ") - ";
       Chalk (rpcColor rpc mainRpc) rpc]
  end.

(** Line 300: [blocks[rpcs.indexOf(mainRpc)]], the height of the first
    occurrence of the main endpoint; an index out of range reads [undefined],
    which is the outer [None]. *)
Definition mainRpcBlock (a : list endpoint) (blocks : list block)
    (mainRpc : endpoint) : option block :=
  i ← indexOf a mainRpc; blocks !! i.

(** Lines 301-309: the decision on the main endpoint; [undefined] reaches
    the last branch. *)
Definition verdict (mainRpc : endpoint) (mainBlock : option block)
    (maxBlock : number) : M unit :=
  match mainBlock with
  | Some None =>
      throw (Error ("The main RPC " +:+ mainRpc +:+ " is probably down"))
  | Some (Some h) =>
      if number_eqb (Int h) maxBlock then
        console_log [Chalk green "The main RPC seems up to speed!"]
      else if number_eqb (Int h) (number_pred maxBlock) then
        console_log [Chalk yellow ("The main RPC is one block behind! " +:+
                       Z_to_string h +:+ "/" +:+ number_to_string maxBlock)]
      else
        throw (Error ("The main RPC " +:+ mainRpc +:+ " is at block " +:+
                       Z_to_string h +:+ "/" +:+ number_to_string maxBlock))
  | None =>
      throw (Error ("The main RPC " +:+ mainRpc +:+ " is at block undefined/" +:+
                     number_to_string maxBlock))
  end.

(** The function. [mainRpc = None] is a [null] or [undefined] argument;
    [rpcsArg = None] is an omitted second argument. [rpcs.map] (line 264) runs
    its callback on one element after the other: an exception of [new Web3]
    ends the call there, after the requests to the elements before it.
    Nothing else touches the array while the call is suspended at its
    [await]. The loop of lines 272-297 visits index [i] of [rpcs] and of
    [blocks], which the assertion of line 271 has found of equal length: it
    logs the lines of [zip_with]. *)
Definition checkRpcSync (net : network) (mainRpc : option endpoint)
    (rpcsArg : option loc) : M unit :=
  rpcs ← default_array rpcsArg;
  match mainRpc with
  | None => throw (Error "mainRpc can't be null")
  | Some mainRpc =>
      a ← load rpcs;
      (if includes a mainRpc then mret tt else push rpcs mainRpc);;
      console_log [Text "Checking RPC Sync: "; Text mainRpc];;
      a ← load rpcs;
      results ← mapM (getBlockNumber net) a;
      let blocks := map valueOrNull results in
      let maxBlock := Math_max blocks in
      console_log [Text "Maximum block: "; Text (number_to_string maxBlock)];;
      a ← load rpcs;
      (if (length a =? length blocks)%nat then mret tt else throw AssertionError);;
      mapM console_log (zip_with (statusLine maxBlock mainRpc) a blocks);;
      a ← load rpcs;
      verdict mainRpc (mainRpcBlock a blocks mainRpc) maxBlock
  end.

(** ** What a call does, in closed form *)

(** The array after line 260. *)
Definition rpcsAfter (mainRpc : endpoint) (rpcs : list endpoint) : list endpoint :=
  if includes rpcs mainRpc then rpcs else rpcs ++ [mainRpc].

(** How the requests of a call settle: the k-th request of the call is the
    (n+k)-th request of the world. *)
Fixpoint outcomes (net : network) (n : nat) (a : list endpoint) : list settled :=
  match a with
  | [] => []
  | rpc :: a' => net n rpc :: outcomes net (S n) a'
  end.

(** [blocks] after line 266. *)
Definition blocksOf (net : network) (n : nat) (a : list endpoint) : list block :=
  map valueOrNull (outcomes net n a).

(** The world in which the verdict of lines 300-309 is taken. *)
Definition reported (net : network) (mainRpc : endpoint) (l : loc)
    (rpcs : list endpoint) (w : world) : world :=
  let a := rpcsAfter mainRpc rpcs in
  let blocks := blocksOf net (length (requests w)) a in
  let maxBlock := Math_max blocks in
  World (<[l := a]> (heap w))
        (console w ++
           [Text "Checking RPC Sync: "; Text mainRpc] ::
           [Text "Maximum block: "; Text (number_to_string maxBlock)] ::
           zip_with (statusLine maxBlock mainRpc) a blocks)
        (requests w ++ a).

(** [null] counts as 0 in [Math.max]. *)
Definition toZ (b : block) : Z := default 0 b.

(** The exception that ends line 264: the one [new Web3] throws for the
    first element of the array that it refuses; [None] when it accepts every
    element. *)
Fixpoint refusal (a : list endpoint) : option exn :=
  match a with
  | [] => None
  | rpc :: a' =>
      match Web3_new rpc with
      | Some e => Some e
      | None => refusal a'
      end
  end.

(** The elements line 264 sends a request to: those before the first one
    that [new Web3] refuses. *)
Fixpoint queried (a : list endpoint) : list endpoint :=
  match a with
  | [] => []
  | rpc :: a' =>
      match Web3_new rpc with
      | Some _ => []
      | None => rpc :: queried a'
      end
  end.

(** The world a call that ends at line 264 leaves behind. *)
Definition stopped (mainRpc : endpoint) (l : loc) (rpcs : list endpoint)
    (w : world) : world :=
  World (<[l := rpcsAfter mainRpc rpcs]> (heap w))
        (console w ++ [[Text "Checking RPC Sync: "; Text mainRpc]])
        (requests w ++ queried (rpcsAfter mainRpc rpcs)).

End CheckRpcSync.

(** ** Reading the report *)

Inductive SyncClassification := UpToDate | OneBehind | Stale | Unreachable.

(** The classification a status line shows. The line of an endpoint that
    did not answer has the three pieces of line 274; the line of an endpoint
    that did has the five pieces of line 296, and the colour of the first one
    tells (lines 278-280: green is 0 blocks behind, yellow 1, red 2 or more).
    Other lines show none. *)
Definition classification (l : line) : option SyncClassification :=
  match l with
  | [Chalk _ _; Text _; Text _] => Some Unreachable              (* line 274 *)
  | [Chalk c _; Text _; Text _; Text _; Chalk _ _] =>            (* line 296 *)
      match c with
      | green => Some UpToDate
      | yellow => Some OneBehind
      | red => Some Stale
      | white | gray => None
      end
  | _ => None
  end.

(** The message forms of the specification. *)
Definition probably_down (rpc : endpoint) : string := rpc +:+ " is probably down".
Definition at_block (rpc : endpoint) (h m : Z) : string :=
  rpc +:+ " is at block " +:+ Z_to_string h +:+ "/" +:+ Z_to_string m.


(** The number of distinct endpoints of a call. *)
Definition distinct (mainRpc : endpoint) (rpcs : list endpoint) : nat :=
  size (list_to_set (mainRpc :: rpcs) : gset endpoint).

(** At least one height request of the call succeeded. *)
Definition answered (blocks : list block) : Prop := exists h, Some h ∈ blocks.

(** Heights are non-negative integers. *)
Definition heights_nonneg (blocks : list block) : Prop :=
  forall h, Some h ∈ blocks -> 0 <= h.

(** ** The scenarios of the specification *)

(** A call on a three-endpoint list: A and B at 100, C at 99. *)
Definition net_100_100_99 : network := fun n _ =>
  match n with
  | O => fulfilled 100
  | 1%nat => fulfilled 100
  | _ => fulfilled 99
  end.

(** The main endpoint times out, the peer is at block 50. *)
Definition net_down_50 : network := fun n _ =>
  match n with
  | O => rejected
  | _ => fulfilled 50
  end.

(** The main endpoint is at 100, the peer at 105. *)
Definition net_100_105 : network := fun n _ =>
  match n with
  | O => fulfilled 100
  | _ => fulfilled 105
  end.

(** No endpoint answers. *)
Definition net_dead : network := fun _ _ => rejected.

(** A world with one array and nothing logged or requested yet. *)
Definition world_with (l : loc) (rpcs : list endpoint) : world :=
  World {[ l := rpcs ]} [] [].

(** ** The mempool watcher (lines 394-431)

    The predicate [matchF] and the endpoint are the caller's and the
    network's: what they answer, and when, reaches the session as events. *)

(** What a method [toLowerCase] of an object hands back: a string, or a
    value of another kind, of which line 429 takes the text ([String(value)],
    which can throw). *)
Inductive lowered :=
  | LString (s : string)
  | LOther (text : exn + string).

(** What a caller can pass as [mode]: a primitive value, a String object, or
    another object with what calling its [toLowerCase] does: [None] when it
    has no such method (a plain object, an array, a function), else the
    exception the method throws or what it returns. *)
Inductive value :=
  | VUndefined
  | VNull
  | VBoolean (b : bool)
  | VNumber (z : Z)
  | VString (s : string)
  | VStringObject (s : string)
  | VObject (method : option (exn + lowered)).

(** The value of [options.web3 ?? web3] (line 396). *)
Inductive web3arg := EndpointString (url : string) | Web3Instance | NotWeb3.

(** [mode.toLowerCase()] (line 421). A String object inherits the method of
    strings. *)
Definition call_toLowerCase `{Libraries} (mode : value) : exn + lowered :=
  match mode with
  | VString s | VStringObject s => inr (LString (toLowerCase s))
  | VUndefined => inl (TypeError "Cannot read properties of undefined (reading 'toLowerCase')")
  | VNull => inl (TypeError "Cannot read properties of null (reading 'toLowerCase')")
  | VBoolean _ | VNumber _ | VObject None =>
      inl (TypeError "mode.toLowerCase is not a function")
  | VObject (Some (inl e)) => inl e
  | VObject (Some (inr v)) => inr v
  end.

(** [toWeb3] (lines 26-34), up to the identity of the instance. *)
Definition toWeb3 `{Libraries} (x : web3arg) : exn + unit :=
  match x with
  | EndpointString url =>
      match Web3_new url with
      | Some e => inl e
      | None => inr tt
      end
  | Web3Instance => inr tt
  | NotWeb3 => inl (Error "Couldn't get web3")
  end.

(** Transaction hashes and transaction objects are opaque. *)
Abbreviation txHash := string.
Abbreviation tx := string.

(** The promise a call returns. *)
Inductive promise := Pending | Fulfilled (v : tx) | Rejected (e : exn).

(** [resolve(v)]: settles a pending promise, does nothing to a settled one. *)
Definition resolve (p : promise) (v : tx) : promise :=
  match p with
  | Pending => Fulfilled v
  | settled => settled
  end.

(** Where one run of the ['data'] listener (lines 399-406) stands. *)
Inductive task :=
  | AwaitTx (h : txHash)     (* suspended at [await _web3.eth.getTransaction(txHash)] *)
  | AwaitMatch (t : tx)      (* suspended at [await matchF(tx)] *)
  | Finished.                (* returned or threw *)

(** A watch session. *)
Record session := Session {
  result : promise;          (* the promise of the call *)
  subscribes : nat;          (* calls of [eth.subscribe] *)
  unsubscribes : nat;        (* calls of [subscription.unsubscribe] *)
  tasks : list task;         (* the runs of the ['data'] listener, oldest first *)
  uncaught : list exn        (* errors thrown out of a listener or rejecting its own promise *)
}.

(** What the event loop delivers to a session. *)
Inductive event :=
  | Data (h : txHash)                          (* the feed emits ['data'] *)
  | FeedError (e : exn)                        (* the feed emits ['error'] *)
  | TxSettled (k : nat) (r : exn + option tx)  (* [getTransaction] of run [k] rejects, or yields [null] or a transaction *)
  | MatchSettled (k : nat) (r : exn + bool).   (* [matchF(tx)] of run [k] throws or rejects, or yields a falsy or truthy value *)

Definition set_task (k : nat) (t : task) (s : session) : list task :=
  <[k := t]> (tasks s).

(** The listeners of lines 399-409 are attached to the subscription from
    [subscribe] to the first [unsubscribe()], which removes them: what the
    feed emits afterwards runs no listener. The runs of the ['data'] listener
    that are suspended at an [await] go on. *)
Definition listening (s : session) : bool :=
  (0 <? subscribes s)%nat && (unsubscribes s =? 0)%nat.

(** One turn of the event loop (lines 399-409). An event for a run that is
    not waiting for it changes nothing. *)
Definition step (s : session) (e : event) : session :=
  match e with
  | Data h =>
      if listening s then
        Session (result s) (subscribes s) (unsubscribes s)
                (tasks s ++ [AwaitTx h]) (uncaught s)
      else s
  | FeedError err =>                                       (* line 408: throw error *)
      if listening s then
        Session (result s) (subscribes s) (unsubscribes s)
                (tasks s) (uncaught s ++ [err])
      else s
  | TxSettled k r =>
      match tasks s !! k with
      | Some (AwaitTx _) =>
          match r with
          | inl err =>
              Session (result s) (subscribes s) (unsubscribes s)
                      (set_task k Finished s) (uncaught s ++ [err])
          | inr None =>                                    (* tx != null fails *)
              Session (result s) (subscribes s) (unsubscribes s)
                      (set_task k Finished s) (uncaught s)
          | inr (Some t) =>                                (* calls matchF(tx) *)
              Session (result s) (subscribes s) (unsubscribes s)
                      (set_task k (AwaitMatch t) s) (uncaught s)
          end
      | _ => s
      end
  | MatchSettled k r =>
      match tasks s !! k with
      | Some (AwaitMatch t) =>
          match r with
          | inl err =>
              Session (result s) (subscribes s) (unsubscribes s)
                      (set_task k Finished s) (uncaught s ++ [err])
          | inr false =>
              Session (result s) (subscribes s) (unsubscribes s)
                      (set_task k Finished s) (uncaught s)
          | inr true =>                                    (* lines 403-404 *)
              Session (resolve (result s) t) (subscribes s) (S (unsubscribes s))
                      (set_task k Finished s) (uncaught s)
          end
      | _ => s
      end
  end.

(** The session after a sequence of events. *)
Definition run (s : session) (evs : list event) : session := fold_left step evs s.

(** A call that failed before any subscription. *)
Definition failed (e : exn) : session := Session (Rejected e) 0 0 [] [].

(** A session just opened: subscribed, nothing received yet. *)
Definition opened : session := Session Pending 1 0 [] [].

(** [waitForTxUsingSubscribePendingTransactions] (lines 394-411), up to the
    first turn of the event loop. An exception in the executor rejects the
    promise. *)
Definition waitForTxUsingSubscribePendingTransactions `{Libraries}
    (provider : web3arg) : session :=
  match toWeb3 provider with
  | inl e => failed e
  | inr _ => opened
  end.

(** [waitForTx] (lines 420-431). The function is [async]: an exception
    rejects the promise it returns; [return await] makes that promise the one
    of the session. The [switch] compares with [===]: only the string "fast"
    selects the watch, no value of another kind does. *)
Definition waitForTx `{Libraries} (mode : value) (provider : web3arg) : session :=
  match call_toLowerCase mode with
  | inl e => failed e
  | inr (LString mode') =>
      if String.eqb mode' "fast" then
        waitForTxUsingSubscribePendingTransactions provider
      else
        failed (Error ("waitForTx mode <" +:+ mode' +:+ "> is not supported"))
  | inr (LOther (inl e)) => failed e
  | inr (LOther (inr text)) =>
      failed (Error ("waitForTx mode <" +:+ text +:+ "> is not supported"))
  end.

(** The error of an unsupported mode. *)
Definition UnsupportedMode (mode' : string) : exn :=
  Error ("waitForTx mode <" +:+ mode' +:+ "> is not supported").

(** ** Reading a session *)

(** The number of predicate evaluations that complete with a truthy value
    in a sequence of events. *)
Definition completes_true (s : session) (e : event) : bool :=
  match e with
  | MatchSettled k (inr true) =>
      match tasks s !! k with
      | Some (AwaitMatch _) => true
      | _ => false
      end
  | _ => false
  end.

Fixpoint matched (s : session) (evs : list event) : nat :=
  match evs with
  | [] => 0
  | e :: evs' => (if completes_true s e then 1 else 0) + matched (step s e) evs'
  end.

(** The state of a session that started from [opened]: pending and not yet
    unsubscribed, or fulfilled and unsubscribed at least once. *)
Definition watching (s : session) : Prop :=
  (result s = Pending /\ unsubscribes s = 0%nat) \/
  (exists t, result s = Fulfilled t /\ (0 < unsubscribes s)%nat).

(** Three hashes are emitted; the second transaction is the first to satisfy
    the predicate, the first one satisfies it later, the third is not found. *)
Definition three_hashes : list event :=
  [Data "h1"; Data "h2"; Data "h3";
   TxSettled 1 (inr (Some "t2")); TxSettled 0 (inr (Some "t1"));
   MatchSettled 1 (inr true);
   TxSettled 2 (inr None);
   MatchSettled 0 (inr true)].

(** The values on which [toLowerCase] is a method. *)
Definition has_toLowerCase (mode : value) : bool :=
  match mode with
  | VString _ | VStringObject _ | VObject (Some _) => true
  | _ => false
  end.

(** [String.prototype.toUpperCase] on one ASCII character. *)
Definition upper_ascii (c : ascii) : ascii :=
  let n := nat_of_ascii c in
  if ((97 <=? n) && (n <=? 122))%nat then ascii_of_nat (n - 32) else c.

(** [s] is [t] with some of its letters capitalised. *)
Fixpoint capitalization (t s : string) : Prop :=
  match t, s with
  | EmptyString, EmptyString => True
  | String c t', String d s' => (d = c \/ d = upper_ascii c) /\ capitalization t' s'
  | _, _ => False
  end.

(** ** JSON values as JavaScript handles them *)

(** [value.name] for a name that no built-in object defines ([status],
    [result], [SourceCode]): [None] is [undefined]; reading a property of
    [null] throws. The fields of an object hold one entry per key. *)
Definition get_field (j : json) (name : string) : exn + option json :=
  match j with
  | JNull => inl (TypeError ("Cannot read properties of null (reading '" +:+ name +:+ "')"))
  | JObj fields => inr (snd <$> List.find (fun kv => String.eqb (fst kv) name) fields)
  | _ => inr None
  end.

(** [value[0]]. *)
Definition get_first (j : json) : exn + option json :=
  match j with
  | JNull => inl (TypeError "Cannot read properties of null (reading '0')")
  | JArr items => inr (head items)
  | JStr (String c _) => inr (Some (JStr (String c EmptyString)))
  | JObj fields => inr (snd <$> List.find (fun kv => String.eqb (fst kv) "0") fields)
  | _ => inr None
  end.

(** [value === 'text']; [None] is [undefined]. *)
Definition is_string (v : option json) (text : string) : bool :=
  match v with
  | Some (JStr s) => String.eqb s text
  | _ => false
  end.

(** [String(value)], which [JSON.parse] applies to its argument. *)
Fixpoint ToString (j : json) : string :=
  match j with
  | JNull => "null"
  | JBool true => "true"
  | JBool false => "false"
  | JNum text => text
  | JStr s => s
  | JArr items =>
      String.concat ","
        (map (fun x => match x with JNull => "" | _ => ToString x end) items)
  | JObj _ => "[object Object]"
  end.

(** ** The module's web3 (lines 17-58 and 433-457) *)

(** The values that reach [toWeb3]. *)
Inductive web3val :=
  | Nullish                    (* [undefined] or [null] *)
  | Endpoint (url : string)    (* a string *)
  | Instance (id : nat)        (* a Web3 object, by its identity *)
  | Foreign.                   (* any other value *)

(** The state of the module. *)
Record utils := Utils {
  utilsReady : bool;           (* line 18 *)
  web3 : web3val;              (* line 19, the module's own [web3] *)
  global_web3 : web3val;       (* [global.web3] *)
  created : list string;       (* the Web3 objects created so far, by endpoint;
                                  the identity of an object is its index *)
  logged : list string         (* the lines logged so far *)
}.

(** [a ?? b]. *)
Definition coalesce (a b : web3val) : web3val :=
  match a with
  | Nullish => b
  | _ => a
  end.

(** State and exceptions, on the state of the module. *)
Definition St (A : Type) : Type := utils -> utils * (exn + A).

Global Instance St_ret : MRet St := fun A a st => (st, inr a).
Global Instance St_bind : MBind St := fun A B k m st =>
  match m st with
  | (st', inl e) => (st', inl e)
  | (st', inr a) => k a st'
  end.

(** In the module of the watcher only the success of [toWeb3] matters; here
    the functions keep the source's names with the objects they return. *)
Module Setup.

Section WithLibraries.
Context `{Libraries}.

(** [toWeb3] (lines 26-34). *)
Definition toWeb3 (_web3 : web3val) : St web3val := fun st =>
  match _web3 with
  | Endpoint url =>
      match Web3_new url with
      | Some e => (st, inl e)
      | None =>
          (Utils (utilsReady st) (web3 st) (global_web3 st)
                 (created st ++ [url]) (logged st),
           inr (Instance (length (created st))))
      end
  | Instance id => (st, inr (Instance id))
  | Nullish | Foreign => (st, inl (Error "Couldn't get web3"))
  end.

(** [setUtilsWeb3] (lines 40-46). *)
Definition setUtilsWeb3 (_web3 : web3val) : St unit := fun st =>
  match toWeb3 _web3 st with
  | (st', inr v) =>
      (Utils (utilsReady st') v (global_web3 st') (created st') (logged st'), inr tt)
  | (st', inl _) => (st', inl (Error "Couldn't set utils web3"))
  end.

(** [setGlobalWeb3] (lines 52-58). *)
Definition setGlobalWeb3 (_web3 : web3val) : St unit := fun st =>
  match toWeb3 _web3 st with
  | (st', inr v) =>
      (Utils (utilsReady st') (web3 st') v (created st') (logged st'), inr tt)
  | (st', inl _) => (st', inl (Error "Couldn't set global web3"))
  end.

Definition log (text : string) : St unit := fun st =>
  (Utils (utilsReady st) (web3 st) (global_web3 st) (created st) (logged st ++ [text]),
   inr tt).

Definition read_global : St web3val := fun st => (st, inr (global_web3 st)).

Definition set_ready : St unit := fun st =>
  (Utils true (web3 st) (global_web3 st) (created st) (logged st), inr tt).

(** [setupUtils] (lines 433-440). *)
Definition setupUtils (_web3 : web3val) : St unit :=
  log "Setting up web3-utils";;
  g ← read_global; v ← toWeb3 (coalesce _web3 g); setUtilsWeb3 v;;
  g ← read_global; v ← toWeb3 (coalesce _web3 g); setGlobalWeb3 v;;
  set_ready.

(** [beforeAll] (lines 442-444). *)
Definition beforeAll : St unit := fun st =>
  if utilsReady st then (st, inr tt) else setupUtils Nullish st.

(** An exported function (lines 448-457): [beforeAll], then the function. *)
Definition exported {A} (exportValue : St A) : St A :=
  beforeAll;; exportValue.

End WithLibraries.
End Setup.

(** The module as it is loaded. *)
Definition loaded (global : web3val) : utils := Utils false Nullish global [] [].

(** A Web3 object. *)
Definition is_instance (v : web3val) : Prop := exists id, v = Instance id.

(** Once the module is ready its [web3] is a Web3 object. *)
Definition ready_ok (st : utils) : Prop :=
  utilsReady st = true -> is_instance (web3 st).

(** What the watcher sees of a value passed to its own [toWeb3]. *)
Definition as_web3arg (v : web3val) : web3arg :=
  match v with
  | Endpoint url => EndpointString url
  | Instance _ => Web3Instance
  | Nullish | Foreign => NotWeb3
  end.

(** The exported [waitForTx], called without [options.web3]: line 396 takes
    the module's [web3]. *)
Definition exported_waitForTx `{Libraries} (mode : value) : St session :=
  Setup.exported (fun st => (st, inr (waitForTx mode (as_web3arg (web3 st))))).

(** ** The functions on liquidity pairs (lines 172-249) *)

(** The module's [contracts] (line 17) is declared and never assigned: it is
    [undefined] throughout, so reading a property of it throws. The four
    functions on liquidity pairs (lines 172-249) throw before they do
    anything; their arguments are any values. *)
Definition getLiquidityPairAddress (token0 token1 : value) : St (option string) :=
  fun st => (st, inl (Error "Missing implementation")).

Definition calculateLiquidityPairAddress (token0 token1 : value) : St string :=
  fun st => (st, inl (Error "Missing implementation")).

Definition liquidityPairHasLiquidity (liquidityPairAddress : value) : St bool :=
  fun st => (st, inl (Error "Missing implementation")).

(** The default of [token1], [contracts.wbnb.options.address], is evaluated
    when the argument is [undefined], before the body. *)
Definition tokenHasLiquidity (token0 token1 : value) : St bool := fun st =>
  match token1 with
  | VUndefined =>
      (st, inl (TypeError "Cannot read properties of undefined (reading 'wbnb')"))
  | _ => (st, inl (Error "Missing implementation"))
  end.

(** ** BscScan (lines 14 and 100-165) *)

Definition bscScanApiEndpoint : string := "https://api.bscscan.com/api".

(** A request: [https.get] or [https.request] with its URL, the search
    parameters of the URL, the headers and what is written to it. *)
Record request := Request {
  method : string;
  target : string;
  searchParams : list (string * string);
  headers : list (string * string);
  written : string
}.

(** What comes back: nothing (the connection fails, with the error the
    request emits), or a response that is delivered whole, its status code,
    its ['data'] chunks and ['end']. *)
Inductive exchange :=
  | Unanswered (error : exn)
  | Answered (statusCode : Z) (chunks : list string).

(** How the promise of a call ends: resolved, rejected, or never settled. *)
Inductive outcome (A : Type) :=
  | Resolved (v : A)
  | Failed (e : exn)
  | Hung.
Arguments Resolved {A} v.
Arguments Failed {A} e.
Arguments Hung {A}.

(** [searchParams.set(name, value)]: the first entry of that name takes the
    value and the others go; without one, the entry is appended. *)
Fixpoint without (name : string) (params : list (string * string)) :=
  match params with
  | [] => []
  | (k, v) :: rest =>
      if String.eqb k name then without name rest else (k, v) :: without name rest
  end.

Fixpoint searchParams_set (name value : string) (params : list (string * string)) :=
  match params with
  | [] => [(name, value)]
  | (k, v) :: rest =>
      if String.eqb k name then (k, value) :: without name rest
      else (k, v) :: searchParams_set name value rest
  end.

(** [String(contractAddress)]. *)
Definition address_text (a : addressVal) : string :=
  match a with
  | NullAddress => "null"
  | Address s => s
  | NotAddress text => text
  end.

(** The ['data'] listeners: [data += chunk], from the empty string. *)
Definition received (chunks : list string) : string :=
  fold_left (fun data chunk => data +:+ chunk) chunks "".

Section BscScan.
Context `{Libraries}.

(** The URL of lines 107-111 and 141-145. *)
Definition requestUrl (action : string) (contractAddress : addressVal)
    (apikey : string) : request :=
  Request "GET" bscScanApiEndpoint
    (searchParams_set "apikey" apikey
       (searchParams_set "address" (address_text contractAddress)
          (searchParams_set "action" action
             (searchParams_set "module" "contract" []))))
    [] "".

(** Lines 122-127: the ['end'] listener of [getContractAbi]. An exception in
    the listener leaves the promise unsettled. *)
Definition abi_of_body (data : string) : outcome json :=
  match JSON_parse data with
  | None => Hung
  | Some resp =>
      match get_field resp "status" with
      | inl _ => Hung
      | inr status =>
          if negb (is_string status "1") then
            Failed (Error "Error when getting the contract ABI")
          else
            match get_field resp "result" with
            | inl _ => Hung
            | inr result =>
                match JSON_parse (from_option ToString "undefined" result) with
                | None => Hung
                | Some abi => Resolved abi
                end
            end
      end
  end.

(** Lines 156-161: the ['end'] listener of [getContractSource]. *)
Definition source_of_body (data : string) : outcome (option json) :=
  match JSON_parse data with
  | None => Hung
  | Some resp =>
      match get_field resp "status" with
      | inl _ => Hung
      | inr status =>
          if negb (is_string status "1") then
            Failed (Error "Error when getting the contract ABI")
          else
            match get_field resp "result" with
            | inr (Some result) =>
                match get_first result with
                | inr (Some first) =>
                    match get_field first "SourceCode" with
                    | inr code => Resolved code
                    | inl _ => Hung
                    end
                | _ => Hung
                end
            | _ => Hung
            end
      end
  end.

(** The shape the two functions share (lines 100-131 and 134-165): the
    checks, the request, the status code, the body. The result is the list
    of requests sent and the way the promise ends. [apikey] is
    [process.env.BSCSCAN_API_KEY]; [http] is the network. *)
Definition bscScan {A} (action : string) (of_body : string -> outcome A)
    (apikey : option string) (http : request -> exchange)
    (contractAddress : addressVal) : list request * outcome A :=
  if negb (isHexStrict contractAddress) then
    ([], Failed (Error "Contract address should be hex"))
  else
    match apikey with
    | None => ([], Failed (Error "Env variable BSCSCAN_API_KEY is null"))
    | Some key =>
        let req := requestUrl action contractAddress key in
        ([req],
         match http req with
         | Unanswered _ => Hung
         | Answered statusCode chunks =>
             if negb (statusCode =? 200) then
               Failed (Error "Error when getting the contract ABI")
             else of_body (received chunks)
         end)
    end.

(** [getContractAbi] (lines 100-131). *)
Definition getContractAbi := bscScan "getabi" abi_of_body.

(** [getContractSource] (lines 134-165). *)
Definition getContractSource := bscScan "getsourcecode" source_of_body.

End BscScan.

(** ** getMethodAbiBySignature (lines 318-324) *)

(** What a caller passes as [abi]: an array of ABI entries, or a contract
    object, of which line 319 takes the [options.jsonInterface]. *)
Inductive abiArg :=
  | AbiArray (entries : list json)
  | AbiContract (jsonInterface : list json).

Definition abi_entries (abi : abiArg) : list json :=
  match abi with
  | AbiArray entries => entries
  | AbiContract jsonInterface => jsonInterface
  end.

Section MethodAbi.
Context `{Libraries}.

(** The callback of [find], on the module's [web3]. *)
Definition matches_signature (w3 : web3val) (keccakSignature : string)
    (methodAbi : json) : exn + bool :=
  match w3 with
  | Instance _ =>
      match encodeFunctionSignature methodAbi with
      | inl e => inl e
      | inr selector => inr (String.eqb selector keccakSignature)
      end
  | _ => inl (TypeError "Cannot read properties of undefined (reading 'eth')")
  end.

(** [abi.find(callback)]: the first entry the callback accepts; [None] is
    [undefined]; an exception of the callback ends the search. *)
Fixpoint find_entry (callback : json -> exn + bool) (entries : list json)
    : exn + option json :=
  match entries with
  | [] => inr None
  | entry :: rest =>
      match callback entry with
      | inl e => inl e
      | inr true => inr (Some entry)
      | inr false => find_entry callback rest
      end
  end.

Definition getMethodAbiBySignature (abi : abiArg) (keccakSignature : string)
    : St (option json) := fun st =>
  (st, find_entry (matches_signature (web3 st) keccakSignature) (abi_entries abi)).

End MethodAbi.

(** ** getWeb3Contracts (lines 15 and 67-94) *)

Definition defaultAbisPath : string := "abis".

(** A value of the [contracts] object: what the caller put there, or the
    contract object that line 89 puts in its place. *)
Inductive slot :=
  | Given (a : addressVal)
  | Built (abi : json) (a : addressVal).

(** [entry[1]], where an address is expected. *)
Definition slot_address (s : slot) : addressVal :=
  match s with
  | Given a => a
  | Built _ _ => NotAddress "[object Object]"
  end.

(** The [contracts] object: its entries, in the order of [Object.entries]. *)
Abbreviation object := (list (string * slot)).

(** [contracts[name] = value]. *)
Fixpoint assign (name : string) (value : slot) (contracts : object) : object :=
  match contracts with
  | [] => [(name, value)]
  | (k, v) :: rest =>
      if String.eqb k name then (k, value) :: rest
      else (k, v) :: assign name value rest
  end.

(** What the call touches outside the object: the files, the requests sent
    and the lines logged. *)
Record node := Node {
  files : gmap string string;
  sent : list request;
  printed : list string
}.

Section Contracts.
Context `{Libraries}.

(** The module's [web3], the API key, the network, and the paths
    [fsPromises.writeFile] can write. *)
Variable w3 : web3val.
Variable apikey : option string.
Variable http : request -> exchange.
Variable writable : string -> bool.

(** Line 74. *)
Definition abiPath_of (abisPath contractName : string) (contractAddress : addressVal)
    : string :=
  path_join abisPath (contractName +:+ "-" +:+ address_text contractAddress +:+ ".json").

(** Line 78: the cached ABI, if the file is there and parses. *)
Definition cached (nd : node) (abiPath : string) : option json :=
  files nd !! abiPath ≫= JSON_parse.

Definition not_retrieved (contractName : string) (contractAddress : addressVal) : exn :=
  Error (contractName +:+ " (" +:+ address_text contractAddress +:+
         ") ABI is not cached and it wasn't possible to retrieve from BscScan").

(** Lines 75-87: the ABI of one entry, from the cache or from BscScan. *)
Definition abi_for (abisPath contractName : string) (contractAddress : addressVal)
    (nd : node) : node * outcome json :=
  let abiPath := abiPath_of abisPath contractName contractAddress in
  match cached nd abiPath with
  | Some abi => (nd, Resolved abi)
  | None =>
      let line := "Cached ABI version of " +:+ contractName +:+ " (" +:+
                  address_text contractAddress +:+
                  ") not found. Trying to get from BscScan" in
      let fetched := getContractAbi apikey http contractAddress in
      let nd' := Node (files nd) (sent nd ++ fetched.1) (printed nd ++ [line]) in
      match fetched.2 with
      | Resolved abi =>
          if writable abiPath then
            (Node (<[abiPath := JSON_stringify abi 2]> (files nd')) (sent nd') (printed nd'),
             Resolved abi)
          else (nd', Failed (not_retrieved contractName contractAddress))
      | Failed _ => (nd', Failed (not_retrieved contractName contractAddress))
      | Hung => (nd', Hung)
      end
  end.

(** Line 89. [w3] is the module's [web3]: a Web3 object once the module is
    set up, [undefined] before. *)
Definition install (contractName : string) (contractAddress : addressVal) (abi : json)
    (contracts : object) : object * outcome unit :=
  match abi with
  | JNull => (contracts, Resolved tt)
  | _ =>
      match w3 with
      | Instance _ =>
          match Contract_new abi contractAddress with
          | Some e => (contracts, Failed e)
          | None => (assign contractName (Built abi contractAddress) contracts, Resolved tt)
          end
      | _ => (contracts,
              Failed (TypeError "Cannot read properties of undefined (reading 'eth')"))
      end
  end.

(** Lines 70-90: the loop over the entries the object had at its start. *)
Fixpoint build (abisPath : string) (entries : object) (contracts : object) (nd : node)
    : object * node * outcome unit :=
  match entries with
  | [] => (contracts, nd, Resolved tt)
  | (contractName, value) :: rest =>
      let contractAddress := slot_address value in
      match abi_for abisPath contractName contractAddress nd with
      | (nd', Resolved abi) =>
          match install contractName contractAddress abi contracts with
          | (contracts', Resolved _) => build abisPath rest contracts' nd'
          | (contracts', Failed e) => (contracts', nd', Failed e)
          | (contracts', Hung) => (contracts', nd', Hung)
          end
      | (nd', Failed e) => (contracts, nd', Failed e)
      | (nd', Hung) => (contracts, nd', Hung)
      end
  end.

(** [getWeb3Contracts] (lines 67-94). The object of the result is the
    caller's object as the call leaves it, which is also the value of the
    promise when it resolves; [None] is an omitted argument. *)
Definition getWeb3Contracts (contracts : option object) (abisPath : option string)
    (nd : node) : object * node * outcome unit :=
  let contracts := default [] contracts in
  build (default defaultAbisPath abisPath) contracts contracts nd.

End Contracts.

(** [JSON.parse] reads back what [JSON.stringify], with indentation 2, writes
    of the ABIs that BscScan returns. *)
Definition round_trip `{Libraries} (apikey : option string) (http : request -> exchange)
    : Prop :=
  forall a abi, (getContractAbi apikey http a).2 = Resolved abi ->
    JSON_parse (JSON_stringify abi 2) = Some abi.

(** ** sendRawJsonRpcMessage (lines 332-356) *)

(** The [currentProvider] of a Web3 object: a [Web3HttpProvider] with its
    [host], which may be missing, or another provider. *)
Inductive provider :=
  | HttpProvider (host : option string)
  | OtherProvider.

(** A message: an object (what [typeof] calls 'object') or a text. *)
Inductive rawMessage :=
  | MessageObject (j : json)
  | MessageText (s : string).

(** Line 338. *)
Definition message_text `{Libraries} (message : rawMessage) : string :=
  match message with
  | MessageObject j => JSON_stringify j 0
  | MessageText s => s
  end.

(** The function. [target] is what line 334 gives: the exception of
    [toWeb3], or the provider of the Web3 object it returns. An exception in
    the executor, that of [https.request] (line 347) included, rejects the
    promise. The result is the list of requests sent and the way the promise
    ends. *)
Definition sendRawJsonRpcMessage `{Libraries} (target : exn + provider)
    (message : rawMessage) (http : request -> exchange) : list request * outcome json :=
  match target with
  | inl e => ([], Failed e)
  | inr (HttpProvider (Some host)) =>
      match https_request host with
      | Some e => ([], Failed e)
      | None =>
          let req := Request "POST" host [] [("content-type", "application/json")]
                       (message_text message) in
          ([req],
           match http req with
           | Unanswered e => Failed e
           | Answered _ chunks =>
               match JSON_parse (received chunks) with
               | Some v => Resolved v
               | None => Hung
               end
           end)
      end
  | inr _ =>
      ([], Failed (Error "sendRawJsonRpcMessage only supports HTTP(s) web3 endpoints"))
  end.

(** ** Inputs for the examples *)

(** [s] between double quotes. *)
Definition quoted (s : string) : string :=
  String (ascii_of_nat 34) (s +:+ String (ascii_of_nat 34) EmptyString).

(** A small library for the examples: [new Web3] accepts the strings that
    start with http and throws for the others, [https.request] accepts the
    https URLs only, [JSON.parse] reads two texts, the empty array and a text
    that stands for a BscScan answer carrying the empty array, and the
    selector of an ABI entry is the entry itself when that is a string. *)
Definition http_only : Libraries := {|
  Web3_new url := if String.prefix "http" url then None
                  else Some (Error ("Can't autodetect provider for " +:+ quoted url));
  isHexStrict a := match a with Address s => String.prefix "0x" s | _ => false end;
  Contract_new abi a := match abi with JArr _ => None | _ => Some (Error "no interface") end;
  JSON_parse s :=
    if String.eqb s "[]" then Some (JArr [])
    else if String.eqb s "<ok []>"
    then Some (JObj [("status", JStr "1"); ("result", JStr "[]")])
    else None;
  JSON_stringify j n := match j with JArr [] => "[]" | _ => "?" end;
  path_join d f := d +:+ "/" +:+ f;
  encodeFunctionSignature j :=
    match j with JStr s => inr s | _ => inl (Error "not a function") end;
  https_request url :=
    if String.prefix "https://" url then None
    else if String.prefix "http://" url then
      Some (TypeError ("Protocol " +:+ quoted "http:" +:+
                       " not supported. Expected " +:+ quoted "https:"))
    else Some (TypeError "Invalid URL");
  String_toLowerCase s := s
|}.

(** A module that is set up on one Web3 object. *)
Definition ready_module : utils := Utils true (Instance 0) (Instance 0) [] [].

(** BscScan answers with the empty ABI. *)
Definition bscscan_ok : request -> exchange := fun _ => Answered 200 ["<ok []>"].

(** BscScan answers that the page does not exist. *)
Definition bscscan_404 : request -> exchange := fun _ => Answered 404 ["Not Found"].

(** BscScan answers with a page that is not JSON. *)
Definition bscscan_html : request -> exchange := fun _ => Answered 200 ["<html>"].

Definition one_contract : object := [("token", Given (Address "0xabc"))].

(** A second entry without a cached ABI and without a key makes the call
    fail after the first entry has been built. *)
Definition two_contracts : object :=
  [("token", Given (Address "0xabc")); ("other", Given NullAddress)].

(** A disk that holds the ABI of the token of [one_contract]. *)
Definition disk_with_token : node :=
  Node {[ "abis/token-0xabc.json" := "[]" ]} [] [].

(** An ABI of three entries, the last two with the same selector. *)
Definition three_entries : abiArg := AbiArray [JStr "0x1"; JStr "0x2"; JStr "0x2"].

(** The hashes the feed emits in a sequence of events, in order. *)
Definition emitted (evs : list event) : list txHash :=
  omap (fun e => match e with Data h => Some h | _ => None end) evs.

(** BscScan answers with a source listing. *)
Definition bscscan_source : request -> exchange := fun _ => Answered 200 ["<source>"].

(** A library that parses one text, the answer of BscScan to a request for
    a source. *)
Definition source_library : Libraries := {|
  Web3_new url := None;
  isHexStrict a := match a with Address _ => true | _ => false end;
  Contract_new abi a := None;
  JSON_parse s :=
    if String.eqb s "<source>"
    then Some (JObj [("status", JStr "1");
                     ("result", JArr [JObj [("SourceCode", JStr "contract C {}")]])])
    else None;
  JSON_stringify j n := "";
  path_join d f := d +:+ "/" +:+ f;
  encodeFunctionSignature j := inl (Error "not a function");
  https_request url := None;
  String_toLowerCase s := s
|}.

(** * Proofs *)

(** ** Running the monad *)

Lemma world_eta w : World (heap w) (console w) (requests w) = w.
Proof. by destruct w. Qed.

Lemma queried_accepted `{Libraries} a : refusal a = None -> queried a = a.
Proof.
  induction a as [|rpc a IH]; simpl; [done|].
  destruct (Web3_new rpc); [done|]. intros E. by rewrite IH.
Qed.

Lemma queried_accepts `{Libraries} a rpc : rpc ∈ queried a -> Web3_new rpc = None.
Proof.
  induction a as [|x a IH]; simpl; [by intros ?%elem_of_nil|].
  destruct (Web3_new x) eqn:E; [by intros ?%elem_of_nil|].
  intros [->|Hin]%elem_of_cons; [done | by apply IH].
Qed.

Lemma refusal_queried `{Libraries} a e :
  refusal a = Some e ->
  exists rpc rest, a = queried a ++ rpc :: rest /\ Web3_new rpc = Some e.
Proof.
  induction a as [|x a IH]; simpl; [done|].
  destruct (Web3_new x) as [e'|] eqn:E.
  - intros [= ->]. by exists x, a.
  - intros He. destruct (IH He) as (rpc & rest & Ha & Hrpc).
    exists rpc, rest. split; [|done]. simpl. by rewrite <- Ha.
Qed.

Lemma mapM_getBlockNumber `{Libraries} net a w :
  mapM (getBlockNumber net) a w =
  (World (heap w) (console w) (requests w ++ queried a),
   match refusal a with
   | Some e => inl e
   | None => inr (outcomes net (length (requests w)) a)
   end).
Proof.
  revert w. induction a as [|rpc a IH]; intros w; simpl.
  - by rewrite app_nil_r, world_eta.
  - unfold mbind, M_bind, getBlockNumber at 1.
    destruct (Web3_new rpc) as [e|]; [by rewrite app_nil_r, world_eta|].
    rewrite IH. simpl. rewrite length_app, <- app_assoc. simpl.
    replace (length (requests w) + 1)%nat with (S (length (requests w))) by lia.
    by destruct (refusal a).
Qed.

Lemma mapM_console_log ls w :
  mapM console_log ls w =
  (World (heap w) (console w ++ ls) (requests w), inr (map (fun _ => tt) ls)).
Proof.
  revert w. induction ls as [|x ls IH]; intros w; simpl.
  - by rewrite app_nil_r, world_eta.
  - unfold mbind, M_bind, console_log at 1. rewrite IH. simpl.
    by rewrite <- app_assoc.
Qed.

Lemma outcomes_length net n a : length (outcomes net n a) = length a.
Proof. revert n. induction a; intros; simpl; auto. Qed.

Lemma blocksOf_length net n a : length (blocksOf net n a) = length a.
Proof. unfold blocksOf. by rewrite length_map, outcomes_length. Qed.

(** ** Facts about the array operations and [Math.max] *)

Lemma includes_spec a x : includes a x = true <-> x ∈ a.
Proof.
  unfold includes. rewrite existsb_exists. split.
  - intros (y & Hy & Heq). apply String.eqb_eq in Heq. subst y.
    by apply list_elem_of_In.
  - intros Hx. exists x. split; [by apply list_elem_of_In | apply String.eqb_refl].
Qed.

Lemma includes_false a x : includes a x = false <-> x ∉ a.
Proof.
  rewrite <- includes_spec. destruct (includes a x); split; congruence.
Qed.

Lemma rpcsAfter_main mainRpc rpcs : mainRpc ∈ rpcsAfter mainRpc rpcs.
Proof.
  unfold rpcsAfter. destruct (includes rpcs mainRpc) eqn:E.
  - by apply includes_spec.
  - apply elem_of_app. right. by apply list_elem_of_singleton.
Qed.

Lemma rpcsAfter_absent mainRpc rpcs :
  mainRpc ∉ rpcs -> rpcsAfter mainRpc rpcs = rpcs ++ [mainRpc].
Proof. intros H. unfold rpcsAfter. by rewrite (proj2 (includes_false _ _) H). Qed.

Lemma rpcsAfter_present mainRpc rpcs :
  mainRpc ∈ rpcs -> rpcsAfter mainRpc rpcs = rpcs.
Proof. intros H. unfold rpcsAfter. by rewrite (proj2 (includes_spec _ _) H). Qed.

Lemma rpcsAfter_nonempty mainRpc rpcs : rpcsAfter mainRpc rpcs <> [].
Proof.
  intros E. pose proof (rpcsAfter_main mainRpc rpcs) as H.
  rewrite E in H. by apply elem_of_nil in H.
Qed.

Lemma rpcsAfter_distinct mainRpc rpcs :
  NoDup rpcs ->
  NoDup (rpcsAfter mainRpc rpcs) /\
  length (rpcsAfter mainRpc rpcs) = distinct mainRpc rpcs.
Proof.
  intros Hnd. unfold distinct. destruct (decide (mainRpc ∈ rpcs)) as [Hin|Hout].
  - rewrite (rpcsAfter_present _ _ Hin). split; [done|].
    rewrite list_to_set_cons.
    replace ({[mainRpc]} ∪ list_to_set rpcs : gset string) with
      (list_to_set rpcs : gset string).
    + by rewrite size_list_to_set.
    + apply set_eq. intros x. rewrite elem_of_union, elem_of_singleton,
        elem_of_list_to_set. split; [by right|]. by intros [->|?].
  - rewrite (rpcsAfter_absent _ _ Hout). split.
    + apply NoDup_app. split; [done|]. split; [|apply NoDup_singleton].
      intros x Hx Hx'. apply list_elem_of_singleton in Hx'. by subst x.
    + rewrite size_list_to_set by (by apply NoDup_cons).
      rewrite length_app. simpl. lia.
Qed.

Lemma indexOf_elem a x :
  x ∈ a -> exists i, indexOf a x = Some i /\ a !! i = Some x.
Proof.
  induction a as [|y a IH]; intros Hx.
  - by apply elem_of_nil in Hx.
  - simpl. destruct (String.eqb y x) eqn:E.
    + apply String.eqb_eq in E. subst y. by exists 0%nat.
    + apply elem_of_cons in Hx as [->|Hx].
      * by rewrite String.eqb_refl in E.
      * destruct (IH Hx) as (i & Hi & Hai). exists (S i). by rewrite Hi.
Qed.


Lemma blocksOf_nonempty net n mainRpc rpcs :
  blocksOf net n (rpcsAfter mainRpc rpcs) <> [].
Proof.
  intros E. apply (rpcsAfter_nonempty mainRpc rpcs).
  apply length_zero_iff_nil. by rewrite <- (blocksOf_length net n), E.
Qed.

(** The main endpoint always has an entry in [blocks]: line 300 never reads
    [undefined]. *)
Lemma mainRpcBlock_defined net n mainRpc rpcs :
  exists i b,
    indexOf (rpcsAfter mainRpc rpcs) mainRpc = Some i /\
    blocksOf net n (rpcsAfter mainRpc rpcs) !! i = Some b /\
    mainRpcBlock (rpcsAfter mainRpc rpcs) (blocksOf net n (rpcsAfter mainRpc rpcs)) mainRpc
      = Some b.
Proof.
  destruct (indexOf_elem _ _ (rpcsAfter_main mainRpc rpcs)) as (i & Hi & Hai).
  destruct (lookup_lt_is_Some_2 (blocksOf net n (rpcsAfter mainRpc rpcs)) i) as [b Hb].
  { rewrite blocksOf_length. by eapply lookup_lt_Some. }
  exists i, b. unfold mainRpcBlock. rewrite Hi. simpl. by rewrite Hb.
Qed.




Lemma ToNumber_toZ b : ToNumber b = Int (toZ b).
Proof. by destruct b. Qed.

Lemma Math_max_from blocks z :
  exists m,
    fold_left (fun highest b => if number_ltb highest (ToNumber b) then ToNumber b else highest)
      blocks (Int z) = Int m /\
    (m = z \/ exists b, b ∈ blocks /\ toZ b = m) /\
    z <= m /\ forall b, b ∈ blocks -> toZ b <= m.
Proof.
  revert z. induction blocks as [|b blocks IH]; intros z; simpl.
  - exists z. repeat split; [by left | lia |]. intros b Hb. by apply elem_of_nil in Hb.
  - rewrite ToNumber_toZ. simpl. destruct (Z.ltb_spec z (toZ b)) as [Hlt|Hge].
    + destruct (IH (toZ b)) as (m & Hm & Hin & Hle & Hall).
      exists m. split; [done|]. split; [|split; [lia|]].
      * right. destruct Hin as [->|(b' & Hb' & Heq)].
        -- exists b. split; [by left | done].
        -- exists b'. split; [by right | done].
      * intros b' [->|Hb']%elem_of_cons; [lia | by apply Hall].
    + destruct (IH z) as (m & Hm & Hin & Hle & Hall).
      exists m. split; [done|]. split; [|split; [lia|]].
      * destruct Hin as [->|(b' & Hb' & Heq)]; [by left|].
        right. exists b'. split; [by right | done].
      * intros b' [->|Hb']%elem_of_cons; [lia | by apply Hall].
Qed.

(** [Math.max] of a non-empty [blocks] is the largest entry, [null] read as 0. *)
Lemma Math_max_nonempty blocks :
  blocks <> [] ->
  exists m, Math_max blocks = Int m /\
    (exists b, b ∈ blocks /\ toZ b = m) /\ forall b, b ∈ blocks -> toZ b <= m.
Proof.
  destruct blocks as [|b blocks]; [done|]. intros _.
  unfold Math_max. simpl. rewrite ToNumber_toZ. simpl.
  destruct (Math_max_from blocks (toZ b)) as (m & Hm & Hin & Hle & Hall).
  exists m. split; [done|]. split.
  - destruct Hin as [->|(b' & Hb' & Heq)].
    + exists b. split; [by left | done].
    + exists b'. split; [by right | done].
  - intros b' [->|Hb']%elem_of_cons; [lia | by apply Hall].
Qed.

(** With one success and no negative height, [Math.max] is the largest of the
    heights that were returned. *)
Lemma Math_max_heights blocks :
  (exists h, Some h ∈ blocks) ->
  (forall h, Some h ∈ blocks -> 0 <= h) ->
  exists m, Math_max blocks = Int m /\ Some m ∈ blocks /\
    forall h, Some h ∈ blocks -> h <= m.
Proof.
  intros [h0 Hh0] Hnn.
  destruct (Math_max_nonempty blocks) as (m & Hm & (b & Hb & Hbm) & Hall).
  { intros ->. by apply elem_of_nil in Hh0. }
  assert (Hle : forall h, Some h ∈ blocks -> h <= m).
  { intros h Hh. by apply (Hall (Some h)). }
  exists m. split; [done|]. split; [|done].
  destruct b as [h|]; simpl in Hbm; [by subst h|].
  subst m. specialize (Hle h0 Hh0). specialize (Hnn h0 Hh0).
  by replace 0 with h0 by lia.
Qed.



Lemma answered_head h blocks : answered (Some h :: blocks).
Proof. exists h. by left. Qed.

Lemma answered_tail b blocks : answered blocks -> answered (b :: blocks).
Proof. intros [h Hh]. exists h. by right. Qed.

Lemma heights_nonneg_nil : heights_nonneg [].
Proof. intros h Hh. by apply elem_of_nil in Hh. Qed.

Lemma heights_nonneg_cons b blocks :
  0 <= toZ b -> heights_nonneg blocks -> heights_nonneg (b :: blocks).
Proof.
  intros Hb Hbs h [<-|Hh]%elem_of_cons; [done | by apply Hbs].
Qed.


Lemma verdict_frame mainRpc mb mx w :
  heap (verdict mainRpc mb mx w).1 = heap w /\
  requests (verdict mainRpc mb mx w).1 = requests w /\
  exists extra, console (verdict mainRpc mb mx w).1 = console w ++ extra.
Proof.
  unfold verdict. destruct mb as [[h|]|]; simpl;
    repeat match goal with |- context [if ?c then _ else _] => destruct c end;
    simpl; repeat split; try (by exists []; rewrite app_nil_r); by eexists.
Qed.

(** ** The world a call leaves behind *)

Local Arguments Math_max : simpl never.

Section Call.
Context `{Libraries}.
Variable net : network.
Variable mainRpc : endpoint.
Variable l : loc.
Variable rpcs : list endpoint.
Variable w : world.

(** The caller passed a reference to the array [rpcs]. *)
Hypothesis passed : heap w !! l = Some rpcs.

Local Abbreviation a := (rpcsAfter mainRpc rpcs).
Local Abbreviation blocks := (blocksOf net (length (requests w)) a).
Local Abbreviation call := (checkRpcSync net (Some mainRpc) (Some l) w).

(** Up to line 264. *)
Lemma checkRpcSync_start :
  call =
  match refusal a with
  | Some e => (stopped mainRpc l rpcs w, inl e)
  | None =>
      verdict mainRpc (mainRpcBlock a blocks mainRpc) (Math_max blocks)
        (reported net mainRpc l rpcs w)
  end.
Proof using passed.
  unfold checkRpcSync, reported, stopped.
  unfold mbind, M_bind, default_array, load. rewrite passed.
  set (w1 := World (<[l := a]> (heap w)) (console w) (requests w)).
  assert (Hpush : (if includes rpcs mainRpc then mret tt else push l mainRpc) w
                  = (w1, inr tt)).
  { unfold w1, rpcsAfter.
    destruct (includes rpcs mainRpc).
    - unfold mret, M_ret. by rewrite insert_id, world_eta.
    - unfold push. by rewrite passed. }
  rewrite Hpush. simpl.
  rewrite lookup_insert_eq, mapM_getBlockNumber. simpl.
  destruct (refusal a) as [e|] eqn:E; [done|].
  rewrite (queried_accepted _ E).
  rewrite lookup_insert_eq.
  fold (blocksOf net (length (requests w)) a).
  rewrite blocksOf_length, Nat.eqb_refl.
  unfold mret at 1, M_ret at 1. rewrite mapM_console_log. simpl.
  rewrite lookup_insert_eq.
  by rewrite <- !app_assoc.
Qed.

(** A call in which [new Web3] accepts every element of the array. *)
Lemma checkRpcSync_run :
  refusal a = None ->
  call = verdict mainRpc (mainRpcBlock a blocks mainRpc) (Math_max blocks)
           (reported net mainRpc l rpcs w).
Proof using passed. intros E. by rewrite checkRpcSync_start, E. Qed.

(** A call in which [new Web3] refuses an element ends at line 264. *)
Lemma checkRpcSync_stops e :
  refusal a = Some e -> call = (stopped mainRpc l rpcs w, inl e).
Proof using passed. intros E. by rewrite checkRpcSync_start, E. Qed.

(** The array and the requests after a call, whether it returns or throws. *)
Lemma checkRpcSync_world :
  heap call.1 = <[l := a]> (heap w) /\
  requests call.1 = requests w ++ queried a.
Proof using passed.
  rewrite checkRpcSync_start. destruct (refusal a) as [e|] eqn:E; [done|].
  match goal with |- context [verdict ?x ?b ?c ?d] =>
    destruct (verdict_frame x b c d) as (Hh & Hr & _) end.
  rewrite Hh, Hr. simpl. by rewrite (queried_accepted _ E).
Qed.

(** The report of a call that reads the heights. *)
Lemma checkRpcSync_console :
  refusal a = None ->
  exists extra, console call.1 = console (reported net mainRpc l rpcs w) ++ extra.
Proof using passed.
  intros E. rewrite (checkRpcSync_run E).
  match goal with |- context [verdict ?x ?b ?c ?d] =>
    destruct (verdict_frame x b c d) as (_ & _ & extra & Hc) end.
  rewrite Hc. by exists extra.
Qed.

(** The line that shows the maximum is the second line of a call. *)
Lemma checkRpcSync_maxLine :
  refusal a = None ->
  console call.1 !! (length (console w) + 1)%nat
  = Some [Text "Maximum block: "; Text (number_to_string (Math_max blocks))].
Proof using passed.
  intros E. destruct (checkRpcSync_console E) as (extra & ->).
  unfold reported. simpl. rewrite <- app_assoc.
  rewrite lookup_app_r by lia.
  by replace (length (console w) + 1 - length (console w))%nat with 1%nat by lia.
Qed.


End Call.

(** An omitted array argument is a fresh empty array. *)
Lemma checkRpcSync_default `{Libraries} net mainRpc w :
  checkRpcSync net mainRpc None w =
  checkRpcSync net mainRpc (Some (fresh (dom (heap w))))
    (World (<[fresh (dom (heap w)) := []]> (heap w)) (console w) (requests w)).
Proof. reflexivity. Qed.

(** ** Properties of checkRpcSync *)

(** C1. In a call in which at least one height request succeeds, and heights
    being non-negative, the maximum the call computes (and logs) is the
    largest of the heights that were returned; the failed requests, which are
    [null] in [blocks], do not change it. The heights are read when [new Web3]
    accepts every endpoint; when it refuses one, the call ends at line 264
    with its exception, before any height is read: no maximum is computed and
    only the opening line is logged. *)
Theorem checkRpcSync_maxBlock `{Libraries} net mainRpc l rpcs w :
  heap w !! l = Some rpcs ->
  let a := rpcsAfter mainRpc rpcs in
  let blocks := blocksOf net (length (requests w)) a in
  let out := checkRpcSync net (Some mainRpc) (Some l) w in
  (refusal a = None -> answered blocks -> heights_nonneg blocks ->
   exists m,
     Math_max blocks = Int m /\
     console out.1 !! (length (console w) + 1)%nat
       = Some [Text "Maximum block: "; Text (Z_to_string m)] /\
     Some m ∈ blocks /\
     (forall h, Some h ∈ blocks -> h <= m) /\
     Math_max (filter (fun b : block => is_Some b) blocks) = Int m) /\
  (forall e, refusal a = Some e ->
     out.2 = inl e /\
     console out.1 = console w ++ [[Text "Checking RPC Sync: "; Text mainRpc]]).
Proof.
  intros Hl a blocks out. split.
  - intros Hacc Hans Hnn.
    destruct (Math_max_heights blocks Hans Hnn) as (m & Hm & Hin & Hle).
    exists m. split; [done|]. split.
    { unfold out. rewrite (checkRpcSync_maxLine _ _ _ _ _ Hl Hacc). fold a blocks.
      by rewrite Hm. }
    split; [done|]. split; [done|].
    destruct (Math_max_heights (filter (fun b : block => is_Some b) blocks))
      as (m' & Hm' & Hin' & Hle').
    + destruct Hans as [h Hh]. exists h. apply list_elem_of_filter. by split.
    + intros h Hh. apply list_elem_of_filter in Hh as [_ Hh]. by apply Hnn.
    + rewrite Hm'. f_equal.
      apply list_elem_of_filter in Hin' as [_ Hin'].
      assert (Hfm : Some m ∈ filter (fun b : block => is_Some b) blocks)
        by (apply list_elem_of_filter; by split).
      specialize (Hle m' Hin'). specialize (Hle' m Hfm). lia.
  - intros e He. unfold out. by rewrite (checkRpcSync_stops _ _ _ _ _ Hl e He).
Qed.

Lemma checkRpcSync_maxBlock_witness :
  exists m,
    Math_max [Some 100; Some 100; Some 99] = Int m /\
    console (@checkRpcSync http_only net_100_100_99 (Some "http://a") (Some 1%positive)
               (world_with 1 ["http://a"; "http://b"; "http://c"])).1 !! 1%nat
      = Some [Text "Maximum block: "; Text (Z_to_string m)] /\
    Some m ∈ [Some 100; Some 100; Some 99] /\
    (forall h, Some h ∈ [Some 100; Some 100; Some 99] -> h <= m) /\
    Math_max (filter (fun b : block => is_Some b) [Some 100; Some 100; Some 99]) = Int m.
Proof.
  apply (proj1 (@checkRpcSync_maxBlock http_only net_100_100_99 "http://a" 1%positive
                  ["http://a"; "http://b"; "http://c"]
                  (world_with 1 ["http://a"; "http://b"; "http://c"]) eq_refl)).
  - reflexivity.
  - apply answered_head.
  - repeat (apply heights_nonneg_cons; [simpl; lia|]). apply heights_nonneg_nil.
Defined.

(** An endpoint [new Web3] finds no provider in ends the call at line 264:
    the endpoint before it has been sent its request, no height is read. *)
Example scenario_refused :
  @checkRpcSync http_only net_100_105 (Some "http://a") (Some 1%positive)
    (world_with 1 ["http://a"; "localhost:8545"]) =
  (World {[ 1%positive := ["http://a"; "localhost:8545"] ]}
         [[Text "Checking RPC Sync: "; Text "http://a"]]
         ["http://a"],
   inl (Error ("Can't autodetect provider for " +:+ quoted "localhost:8545"))).
Proof. by vm_compute. Qed.









(** The first scenario of the specification: A and B are UpToDate, C is
    OneBehind, and the call returns after the healthy verdict. *)
Example scenario_100_100_99 :
  let out := @checkRpcSync http_only net_100_100_99 (Some "http://a") (Some 1%positive)
               (world_with 1 ["http://a"; "http://b"; "http://c"]) in
  omap classification (console out.1) = [UpToDate; UpToDate; OneBehind] /\
  last (console out.1) = Some [Chalk green "The main RPC seems up to speed!"] /\
  out.2 = inr tt.
Proof. by vm_compute. Qed.

(** C8, as the code has it. A call issues one height request per element of
    the array, in order, up to the first element that [new Web3] refuses (to
    every element when it refuses none), after the main endpoint has been
    appended once if it was absent. Nothing removes duplicates: the count of
    requests is the number of distinct endpoints when the caller's list has
    none and every endpoint is accepted. *)
Theorem checkRpcSync_requests `{Libraries} net mainRpc l rpcs w :
  heap w !! l = Some rpcs ->
  let a := rpcsAfter mainRpc rpcs in
  requests (checkRpcSync net (Some mainRpc) (Some l) w).1 = requests w ++ queried a /\
  (refusal a = None -> queried a = a) /\
  (forall e, refusal a = Some e ->
     exists rpc rest, a = queried a ++ rpc :: rest /\ Web3_new rpc = Some e) /\
  (forall rpc, rpc ∈ queried a -> Web3_new rpc = None) /\
  (mainRpc ∈ rpcs -> a = rpcs) /\
  (mainRpc ∉ rpcs -> a = rpcs ++ [mainRpc]) /\
  (NoDup rpcs -> NoDup a /\ length a = distinct mainRpc rpcs).
Proof.
  intros Hl a. split; [by apply checkRpcSync_world|].
  split; [apply queried_accepted|]. split; [apply refusal_queried|].
  split; [apply queried_accepts|].
  split; [apply rpcsAfter_present|]. split; [apply rpcsAfter_absent|].
  apply rpcsAfter_distinct.
Qed.

Lemma checkRpcSync_requests_witness :
  requests (@checkRpcSync http_only net_100_105 (Some "http://a") (Some 1%positive)
              (world_with 1 ["http://b"])).1
    = [] ++ ["http://b"; "http://a"].
Proof.
  destruct (@checkRpcSync_requests http_only net_100_105 "http://a" 1%positive ["http://b"]
              (world_with 1 ["http://b"]) eq_refl) as (Hreq & Hall & _).
  rewrite Hreq, Hall; reflexivity.
Defined.

(** C8, as the specification states it, fails: an endpoint listed twice is
    queried twice, so two requests are issued for one distinct endpoint; and
    an endpoint [new Web3] refuses ends the call before any request, so none
    is issued for two distinct endpoints. *)
Lemma checkRpcSync_requeries_duplicates :
  let out := @checkRpcSync http_only net_100_100_99 (Some "http://a") (Some 1%positive)
               (world_with 1 ["http://a"; "http://a"]) in
  let out' := @checkRpcSync http_only net_100_100_99 (Some "http://a") (Some 1%positive)
                (world_with 1 ["localhost:8545"]) in
  requests out.1 = ["http://a"; "http://a"] /\
  distinct "http://a" ["http://a"; "http://a"] = 1%nat /\
  length (requests out.1) <> distinct "http://a" ["http://a"; "http://a"] /\
  requests out'.1 = [] /\
  distinct "http://a" ["localhost:8545"] = 2%nat /\
  length (requests out'.1) <> distinct "http://a" ["localhost:8545"].
Proof. by vm_compute. Qed.

(** C9. When the main endpoint is not in the array the caller passed, the
    call appends it to that array: after the call, whether it returned or
    threw, the caller's reference holds the old elements, in their order,
    followed by the main endpoint. No other array changes. *)
Theorem checkRpcSync_pushes_main `{Libraries} net mainRpc l rpcs w :
  heap w !! l = Some rpcs ->
  mainRpc ∉ rpcs ->
  heap (checkRpcSync net (Some mainRpc) (Some l) w).1 !! l = Some (rpcs ++ [mainRpc]) /\
  (forall i x, rpcs !! i = Some x -> (rpcs ++ [mainRpc]) !! i = Some x) /\
  (forall l', l' <> l ->
     heap (checkRpcSync net (Some mainRpc) (Some l) w).1 !! l' = heap w !! l').
Proof.
  intros Hl Hout.
  destruct (checkRpcSync_world net mainRpc l rpcs w Hl) as (Hh & _).
  rewrite Hh, (rpcsAfter_absent _ _ Hout). split; [apply lookup_insert_eq|].
  split.
  - intros i x Hi. by apply lookup_app_l_Some.
  - intros l' Hne. by apply lookup_insert_ne.
Qed.

Lemma checkRpcSync_pushes_main_witness :
  heap (@checkRpcSync http_only net_100_105 (Some "http://a") (Some 1%positive)
          (world_with 1 ["http://b"])).1
    !! 1%positive = Some (["http://b"] ++ ["http://a"]) /\
  (forall i x, ["http://b"] !! i = Some x -> (["http://b"] ++ ["http://a"]) !! i = Some x) /\
  (forall l', l' <> 1%positive ->
     heap (@checkRpcSync http_only net_100_105 (Some "http://a") (Some 1%positive)
             (world_with 1 ["http://b"])).1
       !! l' = heap (world_with 1 ["http://b"]) !! l').
Proof.
  apply (@checkRpcSync_pushes_main http_only net_100_105 "http://a" 1%positive ["http://b"]
           (world_with 1 ["http://b"])).
  - reflexivity.
  - apply includes_false. reflexivity.
Defined.

(** ** Facts about sessions *)

Lemma run_app s evs evs' : run s (evs ++ evs') = run (run s evs) evs'.
Proof. apply fold_left_app. Qed.

Lemma run_cons s e evs : run s (e :: evs) = run (step s e) evs.
Proof. reflexivity. Qed.

Lemma run_snoc s evs e : run s (evs ++ [e]) = step (run s evs) e.
Proof. by rewrite run_app. Qed.

(** A turn changes the promise only by the [resolve] of a completed match. *)
Lemma step_result s e :
  (completes_true s e = false /\ result (step s e) = result s /\
   unsubscribes (step s e) = unsubscribes s) \/
  (exists k t, e = MatchSettled k (inr true) /\ tasks s !! k = Some (AwaitMatch t) /\
     completes_true s e = true /\
     result (step s e) = resolve (result s) t /\
     unsubscribes (step s e) = S (unsubscribes s)).
Proof.
  destruct e as [h|err|k r|k r]; simpl.
  - left. by destruct (listening s).
  - left. by destruct (listening s).
  - left. destruct (tasks s !! k) as [[| |]|]; try done.
    by destruct r as [err|[t|]].
  - destruct r as [err|[|]]; destruct (tasks s !! k) as [[|t|]|] eqn:E;
      try (by left).
    right. by exists k, t.
Qed.

Lemma step_fulfilled s e t :
  result s = Fulfilled t -> result (step s e) = Fulfilled t.
Proof.
  intros H. destruct (step_result s e) as [(_ & -> & _)|(k & t' & _ & _ & _ & -> & _)];
    [done | by rewrite H].
Qed.

Lemma run_fulfilled s evs t :
  result s = Fulfilled t -> result (run s evs) = Fulfilled t.
Proof.
  revert s. induction evs as [|e evs IH]; intros s H; [done|].
  simpl. apply IH. by apply step_fulfilled.
Qed.

Lemma step_watching s e : watching s -> watching (step s e).
Proof.
  unfold watching. intros Hw.
  destruct (step_result s e) as [(_ & Hr & Hu)|(k & t & _ & _ & _ & Hr & Hu)];
    rewrite Hr, Hu; [done|].
  right. destruct Hw as [[-> _]|(t' & -> & _)]; simpl; eexists; (split; [done|lia]).
Qed.

Lemma run_watching s evs : watching s -> watching (run s evs).
Proof.
  revert s. induction evs as [|e evs IH]; intros s H; [done|].
  simpl. apply IH. by apply step_watching.
Qed.

Lemma opened_watching : watching opened.
Proof. by left. Qed.

Lemma run_unsubscribes s evs :
  unsubscribes (run s evs) = (unsubscribes s + matched s evs)%nat.
Proof.
  revert s. induction evs as [|e evs IH]; intros s; simpl; [lia|].
  change (fold_left step evs (step s e)) with (run (step s e) evs). rewrite IH.
  destruct (step_result s e) as [(-> & _ & ->)|(k & t & _ & _ & -> & _ & ->)]; lia.
Qed.

(** A fulfilled session was fulfilled by the first completed match. *)
Lemma run_fulfilled_inv evs t :
  result (run opened evs) = Fulfilled t ->
  exists pre k post,
    evs = pre ++ MatchSettled k (inr true) :: post /\
    result (run opened pre) = Pending /\
    tasks (run opened pre) !! k = Some (AwaitMatch t).
Proof.
  induction evs as [|e evs IH] using rev_ind; [done|].
  rewrite run_snoc. intros H.
  destruct (run_watching opened evs opened_watching) as [[Hp _]|(t' & Hf & _)].
  - destruct (step_result (run opened evs) e)
      as [(_ & Hr & _)|(k & t' & -> & Hk & _ & Hr & _)]; [congruence|].
    rewrite H, Hp in Hr. simpl in Hr. injection Hr as ->.
    by exists evs, k, [].
  - rewrite (step_fulfilled _ e _ Hf) in H. injection H as ->.
    destruct (IH Hf) as (pre & k & post & -> & Hp & Hk).
    exists pre, k, (post ++ [e]). by rewrite <- app_assoc.
Qed.

Lemma run_never_rejected evs e : result (run opened evs) <> Rejected e.
Proof.
  destruct (run_watching opened evs opened_watching) as [[-> _]|(t & -> & _)]; done.
Qed.

(** ** Properties of the watcher *)

(** C2, as the code has it. In a session opened in "fast" mode the call
    resolves with the transaction of the first predicate evaluation that
    completes with true, and only so; once resolved it keeps that
    transaction, whatever completes later. [unsubscribe] is called once by
    each predicate evaluation that completes with true: never while the call
    is pending, at least once when it has resolved. *)
Theorem watch_first_match evs :
  (forall pre k t post,
     evs = pre ++ MatchSettled k (inr true) :: post ->
     result (run opened pre) = Pending ->
     tasks (run opened pre) !! k = Some (AwaitMatch t) ->
     result (run opened evs) = Fulfilled t) /\
  (forall t, result (run opened evs) = Fulfilled t ->
     exists pre k post,
       evs = pre ++ MatchSettled k (inr true) :: post /\
       result (run opened pre) = Pending /\
       tasks (run opened pre) !! k = Some (AwaitMatch t)) /\
  (forall pre post t,
     evs = pre ++ post ->
     result (run opened pre) = Fulfilled t ->
     result (run opened evs) = Fulfilled t) /\
  unsubscribes (run opened evs) = matched opened evs /\
  (result (run opened evs) = Pending <-> unsubscribes (run opened evs) = 0%nat).
Proof.
  split; [|split; [|split; [|split]]].
  - intros pre k t post -> Hp Hk. rewrite run_app, run_cons. apply run_fulfilled.
    destruct (step_result (run opened pre) (MatchSettled k (inr true)))
      as [(Hc & _)|(k' & t' & [= <-] & Hk' & _ & -> & _)].
    + simpl in Hc. by rewrite Hk in Hc.
    + rewrite Hp. simpl. congruence.
  - apply run_fulfilled_inv.
  - intros pre post t -> Hf. rewrite run_app. by apply run_fulfilled.
  - by rewrite run_unsubscribes.
  - destruct (run_watching opened evs opened_watching) as [[-> ->]|(t & -> & Hu)];
      [done|]. split; [done | lia].
Qed.

Lemma watch_first_match_witness :
  result (run opened three_hashes) = Fulfilled "t2".
Proof.
  apply (proj1 (watch_first_match three_hashes)
           [Data "h1"; Data "h2"; Data "h3";
            TxSettled 1 (inr (Some "t2")); TxSettled 0 (inr (Some "t1"))]
           1%nat "t2"
           [TxSettled 2 (inr None); MatchSettled 0 (inr true)]);
    reflexivity.
Defined.

(** C2, as the specification states it, fails: when two predicate
    evaluations complete with true in one session, the call resolves once,
    with the first, but [unsubscribe] is called twice. *)
Lemma watch_unsubscribes_twice :
  result (run opened three_hashes) = Fulfilled "t2" /\
  unsubscribes (run opened three_hashes) = 2%nat /\
  unsubscribes (run opened three_hashes) <> 1%nat.
Proof. by vm_compute. Qed.

(** C6 on the code. A feed error is thrown out of the ['error'] listener and
    an error of the predicate rejects the promise of the ['data'] listener
    only: in both cases [unsubscribe] is not called and the call stays
    pending. Whatever the events, the call is never rejected. *)
Theorem watch_error_exits e h t :
  run opened [FeedError e] = Session Pending 1 0 [] [e] /\
  run opened [Data h; TxSettled 0 (inr (Some t)); MatchSettled 0 (inl e)]
    = Session Pending 1 0 [Finished] [e] /\
  (forall evs e', result (run opened evs) <> Rejected e').
Proof.
  split; [done|]. split; [done|]. intros evs e'. apply run_never_rejected.
Qed.

(** ** Mode selection *)

(** In "fast" mode, with a usable web3, the call opens a session. *)
Lemma waitForTx_fast `{Libraries} provider :
  toWeb3 provider = inr tt -> waitForTx (VString "fast") provider = opened.
Proof.
  intros E. unfold waitForTx, waitForTxUsingSubscribePendingTransactions. simpl.
  by rewrite E.
Qed.

Lemma waitForTx_string `{Libraries} s provider :
  waitForTx (VString s) provider =
  if String.eqb (toLowerCase s) "fast"
  then waitForTxUsingSubscribePendingTransactions provider
  else failed (UnsupportedMode (toLowerCase s)).
Proof. reflexivity. Qed.

Lemma waitForTx_other_string `{Libraries} s provider :
  toLowerCase s <> "fast" ->
  waitForTx (VString s) provider = failed (UnsupportedMode (toLowerCase s)).
Proof.
  intros Hne. rewrite waitForTx_string.
  by destruct (String.eqb_spec (toLowerCase s) "fast").
Qed.

Ltac by_cases_on_ascii d :=
  destruct d as [[] [] [] [] [] [] [] []];
  (split;
   [ intros E; vm_compute in E; first [discriminate E | by left | by right]
   | intros [E|E]; first [discriminate E | reflexivity] ]).

Lemma lower_ascii_f d : lower_ascii d = "f"%char <-> d = "f"%char \/ d = "F"%char.
Proof. by_cases_on_ascii d. Qed.

Lemma lower_ascii_a d : lower_ascii d = "a"%char <-> d = "a"%char \/ d = "A"%char.
Proof. by_cases_on_ascii d. Qed.

Lemma lower_ascii_s d : lower_ascii d = "s"%char <-> d = "s"%char \/ d = "S"%char.
Proof. by_cases_on_ascii d. Qed.

Lemma lower_ascii_t d : lower_ascii d = "t"%char <-> d = "t"%char \/ d = "T"%char.
Proof. by_cases_on_ascii d. Qed.

(** The ASCII strings that lowercase to "fast" are its sixteen
    capitalisations. *)
Lemma lower_string_fast s : lower_string s = "fast" <-> capitalization "fast" s.
Proof.
  destruct s as [|d1 [|d2 [|d3 [|d4 [|d5 s]]]]]; simpl; try (split; [done|tauto]).
  change (upper_ascii "f") with "F"%char. change (upper_ascii "a") with "A"%char.
  change (upper_ascii "s") with "S"%char. change (upper_ascii "t") with "T"%char.
  rewrite <- lower_ascii_f, <- lower_ascii_a, <- lower_ascii_s, <- lower_ascii_t.
  split.
  - by intros [= -> -> -> ->].
  - by intros (-> & -> & -> & -> & _).
Qed.

Lemma capitalization_ascii_only s : capitalization "fast" s -> ascii_only s = true.
Proof.
  destruct s as [|d1 [|d2 [|d3 [|d4 [|d5 s]]]]]; simpl; try tauto.
  by intros ([-> | ->] & [-> | ->] & [-> | ->] & [-> | ->] & _).
Qed.

Lemma toLowerCase_ascii `{Libraries} s :
  ascii_only s = true -> toLowerCase s = lower_string s.
Proof. unfold toLowerCase. by intros ->. Qed.

Lemma toLowerCase_capitalization `{Libraries} s :
  capitalization "fast" s -> toLowerCase s = "fast".
Proof.
  intros Hs. rewrite (toLowerCase_ascii s (capitalization_ascii_only s Hs)).
  by apply lower_string_fast.
Qed.

(** C7, as the code has it. A mode string whose lowercase form is not "fast"
    makes the call fail with the unsupported-mode error, no subscription being
    opened; "cheap" is such a string. *)
Theorem waitForTx_unsupported `{Libraries} s provider :
  toLowerCase s <> "fast" ->
  waitForTx (VString s) provider = failed (UnsupportedMode (toLowerCase s)) /\
  subscribes (waitForTx (VString s) provider) = 0%nat /\
  waitForTx (VString "cheap") provider = failed (UnsupportedMode "cheap").
Proof.
  intros Hne. rewrite (waitForTx_other_string s provider Hne). by repeat split.
Qed.

Lemma waitForTx_unsupported_witness :
  @waitForTx http_only (VString "Cheap") Web3Instance
    = failed (UnsupportedMode (@toLowerCase http_only "Cheap")) /\
  subscribes (@waitForTx http_only (VString "Cheap") Web3Instance) = 0%nat /\
  @waitForTx http_only (VString "cheap") Web3Instance = failed (UnsupportedMode "cheap").
Proof.
  apply (@waitForTx_unsupported http_only "Cheap" Web3Instance). vm_compute. discriminate.
Defined.

(** C7, as the specification states it, fails: "FAST" is a mode string other
    than "fast", and the call opens a subscription instead of failing. *)
Lemma waitForTx_FAST_subscribes :
  "FAST" <> "fast" /\
  @waitForTx http_only (VString "FAST") Web3Instance = opened /\
  subscribes (@waitForTx http_only (VString "FAST") Web3Instance) = 1%nat /\
  forall mode', result (@waitForTx http_only (VString "FAST") Web3Instance)
                <> Rejected (UnsupportedMode mode').
Proof. by vm_compute. Qed.

(** C10, as the code has it. The mode is lowercased before the dispatch. A
    string that lowercases to "fast" selects the subscription-based watch:
    every capitalisation of "fast" does, and among the ASCII strings these
    are the only ones; every other string fails with the unsupported-mode
    error. A mode on which [toLowerCase] is no method fails with a
    [TypeError]. A mode that is not a string and has the method is dispatched
    on what the method returns: a String object like the string it wraps, an
    object with a method of its own like the string that method returns. *)
Theorem waitForTx_mode_dispatch `{Libraries} provider :
  (forall s, toLowerCase s = "fast" ->
     waitForTx (VString s) provider = waitForTxUsingSubscribePendingTransactions provider) /\
  (forall s, capitalization "fast" s -> toLowerCase s = "fast") /\
  waitForTx (VString "FAST") provider = waitForTxUsingSubscribePendingTransactions provider /\
  (forall s, ascii_only s = true -> toLowerCase s = "fast" -> capitalization "fast" s) /\
  (forall s, toLowerCase s <> "fast" ->
     waitForTx (VString s) provider = failed (UnsupportedMode (toLowerCase s))) /\
  (forall mode, has_toLowerCase mode = false ->
     exists message, waitForTx mode provider = failed (TypeError message)) /\
  (forall s, waitForTx (VStringObject s) provider = waitForTx (VString s) provider) /\
  (forall s, waitForTx (VObject (Some (inr (LString s)))) provider =
     if String.eqb s "fast" then waitForTxUsingSubscribePendingTransactions provider
     else failed (UnsupportedMode s)).
Proof.
  split; [|split; [|split; [|split; [|split; [|split; [|split]]]]]].
  - intros s Hs. by rewrite waitForTx_string, Hs.
  - apply toLowerCase_capitalization.
  - reflexivity.
  - intros s Ha Hs. rewrite (toLowerCase_ascii s Ha) in Hs. by apply lower_string_fast.
  - intros s. apply waitForTx_other_string.
  - intros mode Hno. destruct mode as [| |b|z|s|s|[[e|v]|]]; try done; by eexists.
  - reflexivity.
  - reflexivity.
Qed.

Lemma waitForTx_mode_dispatch_witness :
  @waitForTx http_only (VString "FaSt") Web3Instance = opened /\
  (exists message, @waitForTx http_only (VNumber 7) Web3Instance = failed (TypeError message)).
Proof.
  destruct (@waitForTx_mode_dispatch http_only Web3Instance)
    as (Hfast & Hcap & _ & _ & _ & Hty & _).
  split.
  - apply (Hfast "FaSt"). apply (Hcap "FaSt"). simpl. tauto.
  - apply (Hty (VNumber 7)). reflexivity.
Defined.

(** C10, as the specification states it, fails: an object whose own
    [toLowerCase] returns "cheap" is not a string, and the call fails with the
    unsupported-mode error, not with a [TypeError]; the String object of
    "FAST" is not a string either, and the call opens the subscription. *)
Lemma waitForTx_duck_typed_mode :
  @waitForTx http_only (VObject (Some (inr (LString "cheap")))) Web3Instance
    = failed (UnsupportedMode "cheap") /\
  (forall message,
     @waitForTx http_only (VObject (Some (inr (LString "cheap")))) Web3Instance
     <> failed (TypeError message)) /\
  @waitForTx http_only (VStringObject "FAST") Web3Instance = opened /\
  (forall message,
     @waitForTx http_only (VStringObject "FAST") Web3Instance <> failed (TypeError message)).
Proof. by vm_compute. Qed.

(** ** Further properties of checkRpcSync *)

(** In a call, [Math.max] has at least one argument: the maximum is finite. *)
Lemma call_max_finite net n mainRpc rpcs :
  exists m, Math_max (blocksOf net n (rpcsAfter mainRpc rpcs)) = Int m.
Proof.
  destruct (Math_max_nonempty _ (blocksOf_nonempty net n mainRpc rpcs))
    as (m & Hm & _). by exists m.
Qed.

(** What the verdict of lines 300-309 does with a height that is defined. *)
Lemma verdict_cases mainRpc b m w :
  (verdict mainRpc (Some b) (Int m) w =
     (w, inl (Error ("The main RPC " +:+ probably_down mainRpc))) /\ b = None) \/
  (exists h, b = Some h /\ h <> m /\ h <> m - 1 /\
     verdict mainRpc (Some b) (Int m) w =
       (w, inl (Error ("The main RPC " +:+ at_block mainRpc h m)))) \/
  (exists h x, b = Some h /\ (h = m \/ h = m - 1) /\
     verdict mainRpc (Some b) (Int m) w =
       (World (heap w) (console w ++ [x]) (requests w), inr tt)).
Proof.
  destruct b as [h|]; [|by left]. right. simpl.
  destruct (Z.eqb_spec h m) as [->|Hne].
  { right. eexists _, _. split; [done|]. split; [by left|]. reflexivity. }
  destruct (Z.eqb_spec h (m - 1)) as [->|Hne'].
  { right. eexists _, _. split; [done|]. split; [by right|]. reflexivity. }
  left. by exists h.
Qed.

(** The exceptions of a call that no other code interleaves with. On an
    array, such a call throws nothing but the error of a [null] main
    endpoint, thrown before anything is done, the exception of [new Web3] for
    the first element it refuses, the error of a main endpoint that is down
    and the error of a main endpoint that is behind. *)
Theorem checkRpcSync_exceptions `{Libraries} net mainRpc l rpcs w e :
  heap w !! l = Some rpcs ->
  (checkRpcSync net mainRpc (Some l) w).2 = inl e ->
  (mainRpc = None /\ e = Error "mainRpc can't be null" /\
   (checkRpcSync net mainRpc (Some l) w).1 = w) \/
  (exists main, mainRpc = Some main /\
     ((exists rpc rest,
         rpcsAfter main rpcs = queried (rpcsAfter main rpcs) ++ rpc :: rest /\
         Web3_new rpc = Some e) \/
      (refusal (rpcsAfter main rpcs) = None /\
       (e = Error ("The main RPC " +:+ probably_down main) \/
        exists h m, e = Error ("The main RPC " +:+ at_block main h m))))).
Proof.
  intros Hl He. destruct mainRpc as [main|].
  - right. exists main. split; [done|].
    destruct (refusal (rpcsAfter main rpcs)) as [e'|] eqn:Hacc.
    { left. rewrite (checkRpcSync_stops _ _ _ _ _ Hl e' Hacc) in He.
      injection He as ->. by apply refusal_queried. }
    right. split; [done|].
    rewrite (checkRpcSync_run _ _ _ _ _ Hl Hacc) in He.
    destruct (mainRpcBlock_defined net (length (requests w)) main rpcs)
      as (i & b & _ & _ & Hmb).
    destruct (call_max_finite net (length (requests w)) main rpcs) as (m & Hm).
    rewrite Hmb, Hm in He.
    destruct (verdict_cases main b m (reported net main l rpcs w))
      as [[Hv _]|[(h & _ & _ & _ & Hv)|(h & x & _ & _ & Hv)]];
      rewrite Hv in He; simpl in He.
    + left. congruence.
    + right. exists h, m. congruence.
    + done.
  - left. simpl in He. by injection He as <-.
Qed.

Lemma checkRpcSync_exceptions_witness :
  exists main, Some "http://a" = Some main /\
    ((exists rpc rest,
        rpcsAfter main ["http://a"; "localhost:8545"]
          = @queried http_only (rpcsAfter main ["http://a"; "localhost:8545"]) ++ rpc :: rest /\
        @Web3_new http_only rpc = Some (Error ("Can't autodetect provider for " +:+ quoted "localhost:8545"))) \/
     (@refusal http_only (rpcsAfter main ["http://a"; "localhost:8545"]) = None /\
      (Error ("Can't autodetect provider for " +:+ quoted "localhost:8545") = Error ("The main RPC " +:+ probably_down main) \/
       exists h m, Error ("Can't autodetect provider for " +:+ quoted "localhost:8545")
                   = Error ("The main RPC " +:+ at_block main h m)))).
Proof.
  destruct (@checkRpcSync_exceptions http_only net_down_50 (Some "http://a") 1%positive
              ["http://a"; "localhost:8545"]
              (world_with 1 ["http://a"; "localhost:8545"])
              (Error ("Can't autodetect provider for " +:+ quoted "localhost:8545")) eq_refl eq_refl)
    as [(Hnone & _)|Hmain]; [discriminate Hnone | exact Hmain].
Defined.

(** The report of a call that no other code interleaves with. When
    [new Web3] accepts every element of the array, the report is complete
    whether the call returns or throws: after the two opening lines comes one
    status line per element of the array, and a last line for the verdict
    exactly when the call returns. When [new Web3] refuses an element, the
    call throws its exception and the opening line is all that is logged. *)
Theorem checkRpcSync_report_lines `{Libraries} net mainRpc l rpcs w :
  heap w !! l = Some rpcs ->
  let a := rpcsAfter mainRpc rpcs in
  let blocks := blocksOf net (length (requests w)) a in
  let out := checkRpcSync net (Some mainRpc) (Some l) w in
  (refusal a = None ->
   exists last,
     console out.1 =
       console w ++
       [Text "Checking RPC Sync: "; Text mainRpc] ::
       [Text "Maximum block: "; Text (number_to_string (Math_max blocks))] ::
       zip_with (statusLine (Math_max blocks) mainRpc) a blocks ++ last /\
     length (zip_with (statusLine (Math_max blocks) mainRpc) a blocks) = length a /\
     (out.2 = inr tt -> length last = 1%nat) /\
     (out.2 <> inr tt -> last = [])) /\
  (forall e, refusal a = Some e ->
     out.2 = inl e /\
     console out.1 = console w ++ [[Text "Checking RPC Sync: "; Text mainRpc]]).
Proof.
  intros Hl a blocks out. unfold out. split.
  - intros Hacc. rewrite (checkRpcSync_run _ _ _ _ _ Hl Hacc).
    destruct (mainRpcBlock_defined net (length (requests w)) mainRpc rpcs)
      as (i & b & _ & _ & Hmb).
    destruct (call_max_finite net (length (requests w)) mainRpc rpcs) as (m & Hm).
    fold a blocks in Hmb, Hm |- *. rewrite Hmb, Hm.
    assert (Hlen : length (zip_with (statusLine (Int m) mainRpc) a blocks) = length a).
    { rewrite length_zip_with. unfold blocks. rewrite blocksOf_length. lia. }
    destruct (verdict_cases mainRpc b m (reported net mainRpc l rpcs w))
      as [[Hv _]|[(h & _ & _ & _ & Hv)|(h & x & _ & _ & Hv)]]; rewrite Hv.
    + exists []. unfold reported. simpl. fold a blocks. rewrite Hm, app_nil_r.
      by repeat split.
    + exists []. unfold reported. simpl. fold a blocks. rewrite Hm, app_nil_r.
      by repeat split.
    + exists [x]. unfold reported. simpl. fold a blocks. rewrite Hm, <- app_assoc.
      by repeat split.
  - intros e He. by rewrite (checkRpcSync_stops _ _ _ _ _ Hl e He).
Qed.

Lemma checkRpcSync_report_lines_witness :
  exists last,
    console (@checkRpcSync http_only net_100_105 (Some "http://a") (Some 1%positive)
               (world_with 1 ["http://a"; "http://b"])).1 =
      [] ++
      [Text "Checking RPC Sync: "; Text "http://a"] ::
      [Text "Maximum block: "; Text (number_to_string (Math_max [Some 100; Some 105]))] ::
      zip_with (statusLine (Math_max [Some 100; Some 105]) "http://a")
        ["http://a"; "http://b"] [Some 100; Some 105] ++ last /\
    length (zip_with (statusLine (Math_max [Some 100; Some 105]) "http://a")
              ["http://a"; "http://b"] [Some 100; Some 105])
      = length ["http://a"; "http://b"] /\
    ((@checkRpcSync http_only net_100_105 (Some "http://a") (Some 1%positive)
        (world_with 1 ["http://a"; "http://b"])).2 = inr tt -> length last = 1%nat) /\
    ((@checkRpcSync http_only net_100_105 (Some "http://a") (Some 1%positive)
        (world_with 1 ["http://a"; "http://b"])).2 <> inr tt -> last = []).
Proof.
  apply (proj1 (@checkRpcSync_report_lines http_only net_100_105 "http://a" 1%positive
                  ["http://a"; "http://b"] (world_with 1 ["http://a"; "http://b"])
                  eq_refl)).
  reflexivity.
Defined.

(** A second call does not grow the array again. After a call, the array
    holds the main endpoint; another call with the same main endpoint and the
    same array, whatever the network answers, leaves the array as it is and
    sends its requests to the same elements as the first. *)
Theorem checkRpcSync_twice `{Libraries} net net' mainRpc l rpcs w :
  heap w !! l = Some rpcs ->
  let w1 := (checkRpcSync net (Some mainRpc) (Some l) w).1 in
  let w2 := (checkRpcSync net' (Some mainRpc) (Some l) w1).1 in
  heap w1 !! l = Some (rpcsAfter mainRpc rpcs) /\
  heap w2 = heap w1 /\
  requests w1 = requests w ++ queried (rpcsAfter mainRpc rpcs) /\
  requests w2 = requests w1 ++ queried (rpcsAfter mainRpc rpcs).
Proof.
  intros Hl w1 w2.
  destruct (checkRpcSync_world net mainRpc l rpcs w Hl) as (Hh & Hr).
  assert (Hl1 : heap w1 !! l = Some (rpcsAfter mainRpc rpcs)).
  { unfold w1. rewrite Hh. apply lookup_insert_eq. }
  destruct (checkRpcSync_world net' mainRpc l _ w1 Hl1) as (Hh2 & Hr2).
  rewrite (rpcsAfter_present mainRpc (rpcsAfter mainRpc rpcs)) in Hh2, Hr2
    by apply rpcsAfter_main.
  split; [done|]. split; [|done].
  unfold w2. rewrite Hh2. by apply insert_id.
Qed.

Lemma checkRpcSync_twice_witness :
  let w1 := (@checkRpcSync http_only net_100_105 (Some "http://a") (Some 1%positive)
               (world_with 1 ["http://b"])).1 in
  let w2 := (@checkRpcSync http_only net_dead (Some "http://a") (Some 1%positive) w1).1 in
  heap w1 !! 1%positive = Some (rpcsAfter "http://a" ["http://b"]) /\
  heap w2 = heap w1 /\
  requests w1 = [] ++ @queried http_only (rpcsAfter "http://a" ["http://b"]) /\
  requests w2 = requests w1 ++ @queried http_only (rpcsAfter "http://a" ["http://b"]).
Proof.
  apply (@checkRpcSync_twice http_only net_100_105 net_dead "http://a" 1%positive
           ["http://b"] (world_with 1 ["http://b"])).
  reflexivity.
Defined.



(** A call without the second argument works on a fresh array: the arrays of
    the caller stay as they are, and the main endpoint is the only one
    queried, if [new Web3] accepts it. *)
Theorem checkRpcSync_omitted `{Libraries} net mainRpc w :
  let out := checkRpcSync net (Some mainRpc) None w in
  (Web3_new mainRpc = None -> requests out.1 = requests w ++ [mainRpc]) /\
  (forall e, Web3_new mainRpc = Some e -> requests out.1 = requests w /\ out.2 = inl e) /\
  forall l rpcs, heap w !! l = Some rpcs -> heap out.1 !! l = Some rpcs.
Proof.
  intros out. unfold out. rewrite checkRpcSync_default.
  set (l0 := fresh (dom (heap w))).
  set (w0 := World (<[l0 := []]> (heap w)) (console w) (requests w)).
  assert (Hl0 : heap w0 !! l0 = Some []) by apply lookup_insert_eq.
  destruct (checkRpcSync_world net mainRpc l0 [] w0 Hl0) as (Hh & Hr).
  change (rpcsAfter mainRpc []) with [mainRpc] in Hr. simpl in Hr.
  split; [|split].
  - intros Hacc. by rewrite Hacc in Hr.
  - intros e He. rewrite He, app_nil_r in Hr. split; [done|].
    rewrite (checkRpcSync_stops _ _ _ _ _ Hl0 e); [done|].
    change (rpcsAfter mainRpc []) with [mainRpc]. simpl. by rewrite He.
  - intros l rpcs Hl. rewrite Hh. simpl.
    assert (l0 <> l).
    { intros E. apply (is_fresh (dom (heap w))). apply elem_of_dom.
      exists rpcs. fold l0. by rewrite E. }
    by rewrite !lookup_insert_ne.
Qed.

(** ** Further properties of the watcher *)

(** A run of the listener waits for the predicate only on a transaction that
    [getTransaction] returned for it. *)
Lemma run_await_match evs k t :
  tasks (run opened evs) !! k = Some (AwaitMatch t) ->
  TxSettled k (inr (Some t)) ∈ evs.
Proof.
  revert k t. induction evs as [|e evs IH] using rev_ind; intros k t; [done|].
  rewrite run_snoc. set (s := run opened evs) in *. rewrite elem_of_app.
  destruct e as [h|err|k' r|k' r]; simpl.
  - destruct (listening s); simpl; [|intros E; left; by apply IH].
    intros [E|[_ E]]%lookup_app_Some; [left; by apply IH|].
    by apply list_lookup_singleton_Some in E as [_ ?].
  - destruct (listening s); simpl; intros E; left; by apply IH.
  - destruct (tasks s !! k') as [[h| |]|] eqn:E; try (intros H; left; by apply IH).
    destruct r as [err|[t'|]]; simpl; unfold set_task;
      (intros [(-> & H & _)|[_ H]]%list_lookup_insert_Some; [|left; by apply IH]);
      try done.
    injection H as ->. right. by apply list_elem_of_singleton.
  - destruct (tasks s !! k') as [[|t'|]|] eqn:E; try (intros H; left; by apply IH).
    destruct r as [err|[|]]; simpl; unfold set_task;
      (intros [(-> & H & _)|[_ H]]%list_lookup_insert_Some; [done|left; by apply IH]).
Qed.

(** Where the resolved transaction comes from. The call resolves only with a
    transaction that [getTransaction] returned for some run of the listener
    and that the predicate of that run then accepted. *)
Theorem watch_provenance evs t :
  result (run opened evs) = Fulfilled t ->
  exists pre k post,
    evs = pre ++ MatchSettled k (inr true) :: post /\
    TxSettled k (inr (Some t)) ∈ pre.
Proof.
  intros H. destruct (run_fulfilled_inv evs t H) as (pre & k & post & -> & _ & Hk).
  exists pre, k, post. split; [done|]. by apply run_await_match.
Qed.

Lemma watch_provenance_witness :
  exists pre k post,
    three_hashes = pre ++ MatchSettled k (inr true) :: post /\
    TxSettled k (inr (Some "t2")) ∈ pre.
Proof.
  apply (watch_provenance three_hashes "t2"). reflexivity.
Defined.

(** ** Properties of the setup *)

Section SetupFacts.
Context `{Libraries}.

Lemma toWeb3_cases v st :
  (exists e, Setup.toWeb3 v st = (st, inl e) /\
     (e = Error "Couldn't get web3" \/ exists url, v = Endpoint url /\ Web3_new url = Some e)) \/
  (exists id, v = Instance id /\ Setup.toWeb3 v st = (st, inr (Instance id))) \/
  (exists url, v = Endpoint url /\ Web3_new url = None /\
     Setup.toWeb3 v st =
       (Utils (utilsReady st) (web3 st) (global_web3 st) (created st ++ [url]) (logged st),
        inr (Instance (length (created st))))).
Proof.
  destruct v as [|url|id|]; simpl.
  - left. eexists. split; [done|]. by left.
  - destruct (Web3_new url) as [e|] eqn:E.
    + left. exists e. split; [done|]. right. by exists url.
    + right. right. by exists url.
  - right. left. by exists id.
  - left. eexists. split; [done|]. by left.
Qed.

(** Errors of the setters. [setUtilsWeb3] and [setGlobalWeb3] replace every
    failure, also an exception of [new Web3], by their own fixed message, and
    a failed call changes nothing. A call that returns has stored a Web3
    object and has left the other variable alone. *)
Theorem setters_errors v st :
  let u := Setup.setUtilsWeb3 v st in
  let g := Setup.setGlobalWeb3 v st in
  (forall e, u.2 = inl e -> e = Error "Couldn't set utils web3" /\ u.1 = st) /\
  (forall e, g.2 = inl e -> e = Error "Couldn't set global web3" /\ g.1 = st) /\
  (u.2 = inr tt -> is_instance (web3 u.1) /\ global_web3 u.1 = global_web3 st) /\
  (g.2 = inr tt -> is_instance (global_web3 g.1) /\ web3 g.1 = web3 st) /\
  (u.2 = inr tt <-> g.2 = inr tt).
Proof.
  unfold Setup.setUtilsWeb3, Setup.setGlobalWeb3. cbv zeta.
  destruct (toWeb3_cases v st)
    as [(e & -> & _)|[(id & -> & ->)|(url & -> & _ & ->)]]; simpl.
  - repeat split; try done; congruence.
  - repeat split; try done; by eexists.
  - repeat split; try done; by eexists.
Qed.

Lemma setupUtils_cases _web3 st :
  let v := coalesce _web3 (global_web3 st) in
  let logged' := logged st ++ ["Setting up web3-utils"] in
  (exists e,
     Setup.setupUtils _web3 st =
       (Utils (utilsReady st) (web3 st) (global_web3 st) (created st) logged', inl e) /\
     (e = Error "Couldn't get web3" \/ exists url, v = Endpoint url /\ Web3_new url = Some e)) \/
  (exists id, v = Instance id /\
     Setup.setupUtils _web3 st =
       (Utils true (Instance id) (Instance id) (created st) logged', inr tt)) \/
  (exists url, v = Endpoint url /\ Web3_new url = None /\
     Setup.setupUtils _web3 st =
       (Utils true (Instance (length (created st))) (Instance (S (length (created st))))
              (created st ++ [url; url]) logged', inr tt)).
Proof.
  unfold Setup.setupUtils, mbind, St_bind, Setup.log, Setup.read_global. simpl.
  set (st1 := Utils _ _ _ _ _).
  destruct (toWeb3_cases (coalesce _web3 (global_web3 st)) st1)
    as [(e' & -> & He)|[(id & Hv & ->)|(url & Hv & Hnew & ->)]]; simpl.
  - left. by exists e'.
  - right. left. exists id. by rewrite Hv.
  - right. right. exists url. rewrite Hv. simpl. rewrite Hnew. simpl.
    rewrite length_app, <- app_assoc. simpl.
    by replace (length (created st) + 1)%nat with (S (length (created st))) by lia.
Qed.

(** A failed setup is clean. When [setupUtils] throws, the error is the one
    of [toWeb3] or an exception of [new Web3], never a message of the setters;
    nothing but the log has changed: the module is not ready and both [web3]
    variables are as before. *)
Theorem setupUtils_failure _web3 st e :
  (Setup.setupUtils _web3 st).2 = inl e ->
  (e = Error "Couldn't get web3" \/
   exists url, coalesce _web3 (global_web3 st) = Endpoint url /\ Web3_new url = Some e) /\
  (Setup.setupUtils _web3 st).1 =
    Utils (utilsReady st) (web3 st) (global_web3 st) (created st)
          (logged st ++ ["Setting up web3-utils"]).
Proof.
  destruct (setupUtils_cases _web3 st)
    as [(e' & -> & He)|[(id & _ & ->)|(url & _ & _ & ->)]]; simpl; [|done|done].
  by intros [= <-].
Qed.

(** A successful setup. When [setupUtils] returns, the module is ready and
    both [web3] variables hold Web3 objects. Given a Web3 object, both hold
    that very object; given an endpoint string, two new objects are created
    for it, one for each variable. *)
Theorem setupUtils_success _web3 st :
  (Setup.setupUtils _web3 st).2 = inr tt ->
  let st' := (Setup.setupUtils _web3 st).1 in
  utilsReady st' = true /\
  logged st' = logged st ++ ["Setting up web3-utils"] /\
  ((exists id, coalesce _web3 (global_web3 st) = Instance id /\
      web3 st' = Instance id /\ global_web3 st' = Instance id /\
      created st' = created st) \/
   (exists url, coalesce _web3 (global_web3 st) = Endpoint url /\
      web3 st' = Instance (length (created st)) /\
      global_web3 st' = Instance (S (length (created st))) /\
      created st' = created st ++ [url; url])).
Proof.
  destruct (setupUtils_cases _web3 st)
    as [(e' & -> & He)|[(id & Hv & ->)|(url & Hv & _ & ->)]]; simpl; [done| |];
    intros _; repeat split.
  - left. by exists id.
  - right. by exists url.
Qed.

End SetupFacts.

Lemma setupUtils_failure_witness :
  (Error "Couldn't get web3" = Error "Couldn't get web3" \/
   exists url, coalesce Nullish (global_web3 (loaded Foreign)) = Endpoint url /\
               @Web3_new http_only url = Some (Error "Couldn't get web3")) /\
  (@Setup.setupUtils http_only Nullish (loaded Foreign)).1 =
    Utils false Nullish Foreign [] ([] ++ ["Setting up web3-utils"]).
Proof.
  apply (@setupUtils_failure http_only Nullish (loaded Foreign)). reflexivity.
Defined.

Lemma setupUtils_success_witness :
  utilsReady (@Setup.setupUtils http_only (Endpoint "http://node") (loaded Nullish)).1 = true /\
  logged (@Setup.setupUtils http_only (Endpoint "http://node") (loaded Nullish)).1
    = [] ++ ["Setting up web3-utils"] /\
  ((exists id, coalesce (Endpoint "http://node") Nullish = Instance id /\
      web3 (@Setup.setupUtils http_only (Endpoint "http://node") (loaded Nullish)).1
        = Instance id /\
      global_web3 (@Setup.setupUtils http_only (Endpoint "http://node") (loaded Nullish)).1
        = Instance id /\
      created (@Setup.setupUtils http_only (Endpoint "http://node") (loaded Nullish)).1 = []) \/
   (exists url, coalesce (Endpoint "http://node") Nullish = Endpoint url /\
      web3 (@Setup.setupUtils http_only (Endpoint "http://node") (loaded Nullish)).1
        = Instance 0 /\
      global_web3 (@Setup.setupUtils http_only (Endpoint "http://node") (loaded Nullish)).1
        = Instance 1 /\
      created (@Setup.setupUtils http_only (Endpoint "http://node") (loaded Nullish)).1
        = [] ++ [url; url])).
Proof.
  apply (@setupUtils_success http_only (Endpoint "http://node") (loaded Nullish)).
  reflexivity.
Defined.

Section ExportFacts.
Context `{Libraries}.

Lemma beforeAll_cases st :
  (utilsReady st = true /\ Setup.beforeAll st = (st, inr tt)) \/
  (utilsReady st = false /\ Setup.beforeAll st = Setup.setupUtils Nullish st).
Proof. unfold Setup.beforeAll. destruct (utilsReady st); [by left | by right]. Qed.

(** The module's [web3] is a Web3 object whenever the module is ready: the
    setters and the setup keep it so. *)
Lemma setupUtils_ready_ok _web3 st :
  ready_ok st -> ready_ok (Setup.setupUtils _web3 st).1.
Proof.
  intros Hok. destruct (setupUtils_cases _web3 st)
    as [(e' & -> & He)|[(id & _ & ->)|(url & _ & _ & ->)]]; simpl;
    [exact Hok| |]; intros _; by eexists.
Qed.

Lemma beforeAll_ready st :
  (Setup.beforeAll st).2 = inr tt -> utilsReady (Setup.beforeAll st).1 = true.
Proof.
  destruct (beforeAll_cases st) as [[Hu ->]|[_ ->]]; [done|].
  by destruct (setupUtils_cases Nullish st)
    as [(e' & -> & He)|[(id & _ & ->)|(url & _ & _ & ->)]].
Qed.

Lemma beforeAll_ready_ok st : ready_ok st -> ready_ok (Setup.beforeAll st).1.
Proof.
  intros Hok. destruct (beforeAll_cases st) as [[_ ->]|[_ ->]]; [done|].
  by apply setupUtils_ready_ok.
Qed.

(** Setup happens once. A [beforeAll] that returns leaves the module ready,
    and on a ready module an exported function is the function itself:
    nothing is logged and no Web3 object is created any more. A [beforeAll]
    that throws leaves the module not ready, so the next exported call sets
    up again. *)
Theorem beforeAll_once st :
  (Setup.beforeAll st).2 = inr tt ->
  utilsReady (Setup.beforeAll st).1 = true /\
  Setup.beforeAll (Setup.beforeAll st).1 = ((Setup.beforeAll st).1, inr tt) /\
  forall A (exportValue : St A),
    Setup.exported exportValue (Setup.beforeAll st).1 = exportValue (Setup.beforeAll st).1.
Proof.
  intros Hr.
  pose proof (beforeAll_ready st Hr) as Hready.
  assert (Hnoop : Setup.beforeAll (Setup.beforeAll st).1 = ((Setup.beforeAll st).1, inr tt)).
  { destruct (beforeAll_cases (Setup.beforeAll st).1) as [[_ E]|[E _]]; [done|congruence]. }
  split; [done|]. split; [done|].
  intros A exportValue. unfold Setup.exported, mbind, St_bind. by rewrite Hnoop.
Qed.

(** An exported function on a module that cannot set up. When [beforeAll]
    throws, the exported function throws the same error without running: the
    outcome does not depend on the function. The module stays not ready and
    only the log has grown. *)
Theorem exported_setup_failure st e :
  (Setup.beforeAll st).2 = inl e ->
  (forall A (exportValue : St A),
     Setup.exported exportValue st =
       (Utils false (web3 st) (global_web3 st) (created st)
              (logged st ++ ["Setting up web3-utils"]), inl e)) /\
  (e = Error "Couldn't get web3" \/
   exists url, global_web3 st = Endpoint url /\ Web3_new url = Some e).
Proof.
  intros Hr. destruct (beforeAll_cases st) as [[_ E]|[Hu E]];
    rewrite E in Hr; [done|].
  destruct (setupUtils_cases Nullish st)
    as [(e' & Hs & He)|[(id & _ & Hs)|(url & _ & _ & Hs)]];
    rewrite Hs in Hr; simpl in Hr; [|done|done].
  injection Hr as ->. rewrite Hu in Hs. split; [|exact He].
  intros A exportValue. unfold Setup.exported, mbind, St_bind. by rewrite E, Hs.
Qed.

(** The exported [waitForTx] without [options.web3]. Setup comes before the
    mode is looked at: when it fails the call fails with the setup error,
    whatever the mode. When it succeeds, line 396 finds a Web3 object: "fast"
    mode opens a session, and a string that does not lowercase to "fast"
    fails with the unsupported-mode error. *)
Theorem exported_waitForTx_outcome mode st :
  ready_ok st ->
  (forall e, (Setup.beforeAll st).2 = inl e -> (exported_waitForTx mode st).2 = inl e) /\
  ((Setup.beforeAll st).2 = inr tt ->
     (forall s, mode = VString s -> toLowerCase s = "fast" ->
        (exported_waitForTx mode st).2 = inr opened) /\
     (forall s, mode = VString s -> toLowerCase s <> "fast" ->
        (exported_waitForTx mode st).2 = inr (failed (UnsupportedMode (toLowerCase s))))).
Proof.
  intros Hok. unfold exported_waitForTx, Setup.exported, mbind, St_bind.
  pose proof (beforeAll_ready_ok st Hok) as Hok'.
  destruct (Setup.beforeAll st) as [st' [e|[]]] eqn:E; simpl in *.
  - split; [by intros ? [= <-] | done].
  - split; [done|]. intros _.
    assert (Hready : utilsReady st' = true).
    { pose proof (beforeAll_ready st) as Hb. rewrite E in Hb. by apply Hb. }
    destruct (Hok' Hready) as [id ->]. simpl. split.
    + intros s -> Hs. by rewrite waitForTx_string, Hs.
    + intros s -> Hs. by rewrite (waitForTx_other_string s Web3Instance Hs).
Qed.

(** The functions on liquidity pairs never return. Exported, each of them
    ends with an exception in every state of the module: the setup error or,
    once the module is ready, the error of a missing implementation, the
    module being left as it is; [tokenHasLiquidity] called without its second
    argument throws a [TypeError] instead, from the default of that
    argument. *)
Theorem liquidity_functions_throw st token0 token1 :
  (utilsReady st = true ->
   Setup.exported (getLiquidityPairAddress token0 token1) st
     = (st, inl (Error "Missing implementation")) /\
   Setup.exported (calculateLiquidityPairAddress token0 token1) st
     = (st, inl (Error "Missing implementation")) /\
   Setup.exported (liquidityPairHasLiquidity token0) st
     = (st, inl (Error "Missing implementation")) /\
   (token1 <> VUndefined ->
    Setup.exported (tokenHasLiquidity token0 token1) st
     = (st, inl (Error "Missing implementation"))) /\
   (exists message,
    Setup.exported (tokenHasLiquidity token0 VUndefined) st = (st, inl (TypeError message)))) /\
  (exists st' e,
     Setup.exported (getLiquidityPairAddress token0 token1) st = (st', inl e)) /\
  (exists st' e,
     Setup.exported (calculateLiquidityPairAddress token0 token1) st = (st', inl e)) /\
  (exists st' e,
     Setup.exported (liquidityPairHasLiquidity token0) st = (st', inl e)) /\
  (exists st' e,
     Setup.exported (tokenHasLiquidity token0 token1) st = (st', inl e)).
Proof.
  unfold Setup.exported, mbind, St_bind. split.
  - intros Hready. unfold Setup.beforeAll. rewrite Hready.
    repeat split; try done.
    + intros Hne. by destruct token1.
    + by eexists.
  - destruct (Setup.beforeAll st) as [st' [e|[]]]; simpl.
    + repeat split; by eexists _, _.
    + repeat split; try (by eexists _, _).
      destruct token1; by eexists _, _.
Qed.

End ExportFacts.

(** ** Properties of the BscScan functions *)

Lemma append_nil_r (s : string) : s +:+ "" = s.
Proof.
  induction s as [|c s IH]; [done|].
  change (String c (s +:+ "") = String c s). by rewrite IH.
Qed.

Lemma append_assoc (s1 s2 s3 : string) : (s1 +:+ s2) +:+ s3 = s1 +:+ s2 +:+ s3.
Proof.
  induction s1 as [|c s1 IH]; [done|].
  change (String c ((s1 +:+ s2) +:+ s3) = String c (s1 +:+ s2 +:+ s3)). by rewrite IH.
Qed.

Lemma received_from chunks data :
  fold_left (fun data chunk => data +:+ chunk) chunks data
  = data +:+ String.concat "" chunks.
Proof.
  revert data. induction chunks as [|c chunks IH]; intros data.
  - simpl. by rewrite append_nil_r.
  - change (fold_left (fun data chunk => data +:+ chunk) chunks (data +:+ c)
            = data +:+ String.concat "" (c :: chunks)).
    rewrite IH, append_assoc. destruct chunks as [|c' chunks]; [|done].
    simpl. by rewrite append_nil_r.
Qed.

(** The listeners collect the body: the chunks, one after the other. *)
Lemma received_concat chunks : received chunks = String.concat "" chunks.
Proof. unfold received. by rewrite received_from. Qed.

Lemma is_string_spec v text :
  v = Some (JStr text) \/ is_string v text = false.
Proof.
  destruct v as [[| | |s| |]|]; try (by right). simpl.
  destruct (String.eqb_spec s text) as [->|]; [by left | by right].
Qed.

Section BscScanFacts.
Context `{Libraries}.

Lemma bscScan_cases {A} action (of_body : string -> outcome A) apikey http a :
  (isHexStrict a = false /\
   bscScan action of_body apikey http a
     = ([], Failed (Error "Contract address should be hex"))) \/
  (isHexStrict a = true /\ apikey = None /\
   bscScan action of_body apikey http a
     = ([], Failed (Error "Env variable BSCSCAN_API_KEY is null"))) \/
  (exists key, isHexStrict a = true /\ apikey = Some key /\
   ((exists e, http (requestUrl action a key) = Unanswered e /\
       bscScan action of_body apikey http a = ([requestUrl action a key], Hung)) \/
    (exists statusCode chunks,
       http (requestUrl action a key) = Answered statusCode chunks /\
       statusCode <> 200 /\
       bscScan action of_body apikey http a
         = ([requestUrl action a key],
            Failed (Error "Error when getting the contract ABI"))) \/
    (exists chunks,
       http (requestUrl action a key) = Answered 200 chunks /\
       bscScan action of_body apikey http a
         = ([requestUrl action a key], of_body (String.concat "" chunks))))).
Proof.
  unfold bscScan. destruct (isHexStrict a); simpl; [|by left].
  right. destruct apikey as [key|]; [|by left].
  right. exists key. split; [done|]. split; [done|].
  destruct (http (requestUrl action a key)) as [e|statusCode chunks].
  - left. by exists e.
  - right. destruct (Z.eqb_spec statusCode 200) as [->|Hne]; simpl.
    + right. exists chunks. by rewrite received_concat.
    + left. by exists statusCode, chunks.
Qed.

(** The request to BscScan. Neither function sends anything unless the
    address is strict hex and the API key is set, and the address is checked
    first. When they send, it is one GET to the BscScan endpoint whose search
    parameters are, in this order, the module, the action, the address and
    the key; the two functions differ in the action only. *)
Theorem bscScan_request apikey http a :
  (isHexStrict a = false ->
     getContractAbi apikey http a = ([], Failed (Error "Contract address should be hex")) /\
     getContractSource apikey http a = ([], Failed (Error "Contract address should be hex"))) /\
  (isHexStrict a = true -> apikey = None ->
     getContractAbi apikey http a
       = ([], Failed (Error "Env variable BSCSCAN_API_KEY is null")) /\
     getContractSource apikey http a
       = ([], Failed (Error "Env variable BSCSCAN_API_KEY is null"))) /\
  (forall key, isHexStrict a = true -> apikey = Some key ->
     (getContractAbi apikey http a).1 =
       [Request "GET" "https://api.bscscan.com/api"
          [("module", "contract"); ("action", "getabi");
           ("address", address_text a); ("apikey", key)] [] ""] /\
     (getContractSource apikey http a).1 =
       [Request "GET" "https://api.bscscan.com/api"
          [("module", "contract"); ("action", "getsourcecode");
           ("address", address_text a); ("apikey", key)] [] ""]).
Proof.
  unfold getContractAbi, getContractSource, bscScan.
  split; [|split].
  - by intros ->.
  - by intros -> ->.
  - by intros key -> ->.
Qed.

(** When [getContractAbi] resolves. The promise resolves with an ABI exactly
    when the checks pass, the response has status code 200, its body, the
    chunks put together, parses to a value whose [status] is the string "1",
    and the [result] of that value, read as text, parses to the ABI. *)
Theorem getContractAbi_resolves apikey http a abi :
  (getContractAbi apikey http a).2 = Resolved abi <->
  isHexStrict a = true /\
  exists key chunks resp result,
    apikey = Some key /\
    http (requestUrl "getabi" a key) = Answered 200 chunks /\
    JSON_parse (String.concat "" chunks) = Some resp /\
    get_field resp "status" = inr (Some (JStr "1")) /\
    get_field resp "result" = inr result /\
    JSON_parse (from_option ToString "undefined" result) = Some abi.
Proof.
  unfold getContractAbi. split.
  - intros Hr.
    destruct (bscScan_cases "getabi" abi_of_body apikey http a)
      as [[_ E]|[(_ & _ & E)|(key & Hhex & -> & [(e & _ & E)|[(sc & ch & _ & _ & E)|(chunks & Hhttp & E)]])]];
      rewrite E in Hr; simpl in Hr; try done.
    split; [done|]. exists key, chunks. unfold abi_of_body in Hr.
    destruct (JSON_parse (String.concat "" chunks)) as [resp|]; [|done].
    destruct (get_field resp "status") as [|status] eqn:Es; [done|].
    destruct (is_string_spec status "1") as [->|Hno]; [|by rewrite Hno in Hr].
    simpl in Hr.
    destruct (get_field resp "result") as [|result] eqn:Er; [done|].
    destruct (JSON_parse (from_option ToString "undefined" result)) as [abi'|] eqn:Ep;
      [|done].
    injection Hr as ->. by exists resp, result.
  - intros (Hhex & key & chunks & resp & result & -> & Hhttp & Hp & Hs & Hres & Hp').
    unfold bscScan. rewrite Hhex, Hhttp. simpl.
    rewrite received_concat. unfold abi_of_body. rewrite Hp, Hs. simpl.
    by rewrite Hres, Hp'.
Qed.

Lemma abi_of_body_failed data e :
  abi_of_body data = Failed e <->
  e = Error "Error when getting the contract ABI" /\
  exists resp status, JSON_parse data = Some resp /\
    get_field resp "status" = inr status /\ is_string status "1" = false.
Proof.
  unfold abi_of_body. split.
  - destruct (JSON_parse data) as [resp|] eqn:Ep; [|done].
    destruct (get_field resp "status") as [|status] eqn:Es; [done|].
    destruct (is_string status "1") eqn:E; simpl.
    + destruct (get_field resp "result") as [|result]; [done|].
      by destruct (JSON_parse (from_option ToString "undefined" result)).
    + intros [= <-]. split; [done|]. by exists resp, status.
  - intros (-> & resp & status & -> & -> & ->). done.
Qed.

Lemma source_of_body_failed data e :
  source_of_body data = Failed e <->
  e = Error "Error when getting the contract ABI" /\
  exists resp status, JSON_parse data = Some resp /\
    get_field resp "status" = inr status /\ is_string status "1" = false.
Proof.
  unfold source_of_body. split.
  - destruct (JSON_parse data) as [resp|] eqn:Ep; [|done].
    destruct (get_field resp "status") as [|status] eqn:Es; [done|].
    destruct (is_string status "1") eqn:E; simpl.
    + destruct (get_field resp "result") as [|[result|]]; try done.
      destruct (get_first result) as [|[first|]]; try done.
      by destruct (get_field first "SourceCode").
    + intros [= <-]. split; [done|]. by exists resp, status.
  - intros (-> & resp & status & -> & -> & ->). done.
Qed.

(** When a promise of the shape of [bscScan] is rejected, for a body handler
    that rejects exactly for a [status] other than "1". *)
Lemma bscScan_rejected {A} action (of_body : string -> outcome A) apikey http a e :
  (forall data, of_body data = Failed e <->
     e = Error "Error when getting the contract ABI" /\
     exists resp status, JSON_parse data = Some resp /\
       get_field resp "status" = inr status /\ is_string status "1" = false) ->
  (bscScan action of_body apikey http a).2 = Failed e <->
  (isHexStrict a = false /\ e = Error "Contract address should be hex") \/
  (isHexStrict a = true /\ apikey = None /\
   e = Error "Env variable BSCSCAN_API_KEY is null") \/
  (isHexStrict a = true /\ e = Error "Error when getting the contract ABI" /\
   exists key statusCode chunks,
     apikey = Some key /\
     http (requestUrl action a key) = Answered statusCode chunks /\
     (statusCode <> 200 \/
      exists resp status, JSON_parse (String.concat "" chunks) = Some resp /\
        get_field resp "status" = inr status /\ is_string status "1" = false)).
Proof.
  intros Hbody. split.
  - intros Hr.
    destruct (bscScan_cases action of_body apikey http a)
      as [[Hhex E]|[(Hhex & Hk & E)|(key & Hhex & Hk & [(e' & _ & E)|[(sc & ch & Hh & Hsc & E)|(chunks & Hh & E)]])]];
      rewrite E in Hr; simpl in Hr; try done.
    + left. by injection Hr as <-.
    + right. left. by injection Hr as <-.
    + right. right. injection Hr as <-. split; [done|]. split; [done|].
      exists key, sc, ch. by eauto.
    + right. right. apply Hbody in Hr as [-> Hb]. split; [done|]. split; [done|].
      exists key, 200, chunks. by eauto.
  - unfold bscScan.
    intros [[-> ->]|[(-> & -> & ->)|(-> & -> & key & sc & chunks & -> & Hh & Hwhy)]];
      simpl; try done.
    rewrite Hh. destruct (Z.eqb_spec sc 200) as [->|Hne]; simpl; [|done].
    destruct Hwhy as [Hsc|Hb]; [done|]. rewrite received_concat.
    by apply Hbody.
Qed.

(** The rejections. Whatever the network does, a promise of either function
    is rejected with one of three errors only, each in its own case: an
    address that is not strict hex, a missing API key and, after these
    checks, exactly a response whose status code is not 200 or whose body
    parses to a value whose [status] is not the string "1";
    [getContractSource] too speaks of the ABI then. *)
Theorem bscScan_rejections apikey http a e :
  ((getContractAbi apikey http a).2 = Failed e <->
   (isHexStrict a = false /\ e = Error "Contract address should be hex") \/
   (isHexStrict a = true /\ apikey = None /\
    e = Error "Env variable BSCSCAN_API_KEY is null") \/
   (isHexStrict a = true /\ e = Error "Error when getting the contract ABI" /\
    exists key statusCode chunks,
      apikey = Some key /\
      http (requestUrl "getabi" a key) = Answered statusCode chunks /\
      (statusCode <> 200 \/
       exists resp status, JSON_parse (String.concat "" chunks) = Some resp /\
         get_field resp "status" = inr status /\ is_string status "1" = false))) /\
  ((getContractSource apikey http a).2 = Failed e <->
   (isHexStrict a = false /\ e = Error "Contract address should be hex") \/
   (isHexStrict a = true /\ apikey = None /\
    e = Error "Env variable BSCSCAN_API_KEY is null") \/
   (isHexStrict a = true /\ e = Error "Error when getting the contract ABI" /\
    exists key statusCode chunks,
      apikey = Some key /\
      http (requestUrl "getsourcecode" a key) = Answered statusCode chunks /\
      (statusCode <> 200 \/
       exists resp status, JSON_parse (String.concat "" chunks) = Some resp /\
         get_field resp "status" = inr status /\ is_string status "1" = false))).
Proof.
  split.
  - apply bscScan_rejected. intros data. apply abi_of_body_failed.
  - apply bscScan_rejected. intros data. apply source_of_body_failed.
Qed.

(** Promises that never settle. After the checks, when the connection fails,
    or when the response has status code 200 and a body that is not JSON, the
    promise of either function is neither resolved nor rejected: nothing
    listens to the error of the request, and the exception of [JSON.parse] is
    thrown inside the ['end'] listener. *)
Theorem bscScan_hangs key http a :
  isHexStrict a = true ->
  ((exists e, http (requestUrl "getabi" a key) = Unanswered e) \/
   (exists chunks, http (requestUrl "getabi" a key) = Answered 200 chunks /\
      JSON_parse (String.concat "" chunks) = None) ->
   (getContractAbi (Some key) http a).2 = Hung) /\
  ((exists e, http (requestUrl "getsourcecode" a key) = Unanswered e) \/
   (exists chunks, http (requestUrl "getsourcecode" a key) = Answered 200 chunks /\
      JSON_parse (String.concat "" chunks) = None) ->
   (getContractSource (Some key) http a).2 = Hung).
Proof.
  intros Hhex. unfold getContractAbi, getContractSource, bscScan. rewrite Hhex. simpl.
  split; (intros [[e ->]|(chunks & -> & Hp)]; [done|]); simpl;
    rewrite received_concat; unfold abi_of_body, source_of_body; by rewrite Hp.
Qed.

End BscScanFacts.

(** ** Properties of getMethodAbiBySignature *)

Section MethodAbiFacts.
Context `{Libraries}.

Lemma find_entry_Some callback entries entry :
  find_entry callback entries = inr (Some entry) <->
  exists i, entries !! i = Some entry /\ callback entry = inr true /\
    forall j other, (j < i)%nat -> entries !! j = Some other -> callback other = inr false.
Proof.
  induction entries as [|x entries IH]; simpl.
  - split; [done|]. by intros (i & Hi & _).
  - destruct (callback x) as [e|[|]] eqn:E.
    + split; [done|]. intros ([|i] & Hi & Hc & Hbefore).
      * simpl in Hi. injection Hi as ->. congruence.
      * specialize (Hbefore 0%nat x). simpl in Hbefore.
        rewrite E in Hbefore. discriminate Hbefore; [lia|done].
    + split.
      * intros [= <-]. exists 0%nat. split; [done|]. split; [done|]. intros j ? Hj. lia.
      * intros ([|i] & Hi & Hc & Hbefore).
        -- simpl in Hi. by injection Hi as ->.
        -- specialize (Hbefore 0%nat x). simpl in Hbefore.
           rewrite E in Hbefore. discriminate Hbefore; [lia|done].
    + rewrite IH. split.
      * intros (i & Hi & Hc & Hbefore). exists (S i). split; [done|]. split; [done|].
        intros [|j] other Hj Ho.
        -- simpl in Ho. by injection Ho as <-.
        -- apply (Hbefore j); [lia|done].
      * intros ([|i] & Hi & Hc & Hbefore).
        -- simpl in Hi. injection Hi as ->. congruence.
        -- exists i. split; [done|]. split; [done|].
           intros j other Hj Ho. apply (Hbefore (S j)); [lia|done].
Qed.

Lemma find_entry_None callback entries :
  find_entry callback entries = inr None <->
  forall entry, entry ∈ entries -> callback entry = inr false.
Proof.
  induction entries as [|x entries IH]; simpl.
  - split; [|done]. intros _ entry Hin. by apply elem_of_nil in Hin.
  - destruct (callback x) as [e|[|]] eqn:E.
    + split; [done|]. intros Hall. specialize (Hall x). rewrite E in Hall.
      discriminate Hall. by left.
    + split; [done|]. intros Hall. specialize (Hall x). rewrite E in Hall.
      discriminate Hall. by left.
    + rewrite IH. split.
      * intros Hall entry [->|Hin]%elem_of_cons; [done | by apply Hall].
      * intros Hall entry Hin. apply Hall. by right.
Qed.

(** The first match. On a module that is set up, the function returns the
    first entry of the ABI, in the order of the array, whose encoded selector
    is the signature: every entry before it encodes to another selector. It
    returns [undefined] exactly when every entry encodes to another selector.
    A contract object gives what its [jsonInterface] gives, and the state of
    the module does not change. *)
Theorem getMethodAbiBySignature_first abi keccakSignature st id :
  web3 st = Instance id ->
  let out := getMethodAbiBySignature abi keccakSignature st in
  out.1 = st /\
  (forall entry,
     out.2 = inr (Some entry) <->
     exists i, abi_entries abi !! i = Some entry /\
       encodeFunctionSignature entry = inr keccakSignature /\
       forall j other, (j < i)%nat -> abi_entries abi !! j = Some other ->
         exists selector, encodeFunctionSignature other = inr selector /\
                          selector <> keccakSignature) /\
  (out.2 = inr None <->
     forall entry, entry ∈ abi_entries abi ->
       exists selector, encodeFunctionSignature entry = inr selector /\
                        selector <> keccakSignature) /\
  getMethodAbiBySignature (AbiContract (abi_entries abi)) keccakSignature st = out.
Proof.
  intros Hw. unfold getMethodAbiBySignature. simpl. rewrite Hw.
  assert (Htrue : forall entry,
    matches_signature (Instance id) keccakSignature entry = inr true <->
    encodeFunctionSignature entry = inr keccakSignature).
  { intros entry. simpl. destruct (encodeFunctionSignature entry) as [e|s]; [done|].
    destruct (String.eqb_spec s keccakSignature) as [->|Hne]; [done|].
    split; [done|]. by intros [= ->]. }
  assert (Hfalse : forall entry,
    matches_signature (Instance id) keccakSignature entry = inr false <->
    exists selector, encodeFunctionSignature entry = inr selector /\
                     selector <> keccakSignature).
  { intros entry. simpl. destruct (encodeFunctionSignature entry) as [e|s].
    - split; [done|]. by intros (? & ? & _).
    - destruct (String.eqb_spec s keccakSignature) as [->|Hne].
      + split; [done|]. by intros (? & [= <-] & ?).
      + split; [|done]. intros _. by exists s. }
  split; [done|]. split; [|split; [|done]].
  - intros entry. rewrite find_entry_Some. split.
    + intros (i & Hi & Hc & Hb). exists i. split; [done|]. split; [by apply Htrue|].
      intros j other Hj Ho. apply Hfalse. by apply (Hb j).
    + intros (i & Hi & Hc & Hb). exists i. split; [done|]. split; [by apply Htrue|].
      intros j other Hj Ho. apply Hfalse. by apply (Hb j).
  - rewrite find_entry_None. split.
    + intros Hall entry Hin. apply Hfalse. by apply Hall.
    + intros Hall entry Hin. apply Hfalse. by apply Hall.
Qed.

End MethodAbiFacts.

(** ** Properties of getWeb3Contracts *)

Lemma assign_keys name value (contracts : object) :
  name ∈ map fst contracts -> map fst (assign name value contracts) = map fst contracts.
Proof.
  induction contracts as [|[k v] rest IH]; simpl.
  - intros Hin. by apply elem_of_nil in Hin.
  - destruct (String.eqb_spec k name) as [->|Hne]; [done|].
    intros [?|Hin]%elem_of_cons; [congruence|]. simpl. by rewrite IH.
Qed.

Lemma assign_elem name value (contracts : object) k v :
  (k, v) ∈ assign name value contracts ->
  (k, v) ∈ contracts \/ (k = name /\ v = value).
Proof.
  induction contracts as [|[k' v'] rest IH]; simpl.
  - intros [= -> ->]%list_elem_of_singleton. by right.
  - destruct (String.eqb_spec k' name) as [->|Hne].
    + intros [[= -> ->]|Hin]%elem_of_cons; [by right|]. left. by right.
    + intros [->|Hin]%elem_of_cons; [left; by left|].
      destruct (IH Hin) as [?|?]; [left; by right | by right].
Qed.

Section ContractsFacts.
Context `{Libraries}.
Variable w3 : web3val.
Variable apikey : option string.
Variable http : request -> exchange.
Variable writable : string -> bool.

Local Abbreviation abi_for' := (abi_for apikey http writable).
Local Abbreviation install' := (install w3).
Local Abbreviation build' := (build w3 apikey http writable).

Lemma install_shape name a abi (contracts : object) :
  name ∈ map fst contracts ->
  map fst (install' name a abi contracts).1 = map fst contracts /\
  forall k v, (k, v) ∈ (install' name a abi contracts).1 ->
    (k, v) ∈ contracts \/ (k = name /\ v = Built abi a).
Proof.
  intros Hin. unfold install.
  destruct abi; try (by split; [|intros; left]);
    (destruct w3; try (by split; [|intros; left]);
     destruct (Contract_new _ a); try (by split; [|intros; left]); simpl;
     split; [by apply assign_keys | apply assign_elem]).
Qed.

Lemma build_shape abisPath (entries contracts : object) nd :
  (forall name v, (name, v) ∈ entries -> name ∈ map fst contracts) ->
  map fst (build' abisPath entries contracts nd).1.1 = map fst contracts /\
  forall name v, (name, v) ∈ (build' abisPath entries contracts nd).1.1 ->
    (name, v) ∈ contracts \/
    exists abi old, (name, old) ∈ entries /\ v = Built abi (slot_address old).
Proof.
  revert contracts nd. induction entries as [|[name value] rest IH];
    intros contracts nd Hkeys; simpl.
  - split; [done|]. intros; by left.
  - assert (Hname : name ∈ map fst contracts) by (apply (Hkeys name value); by left).
    destruct (abi_for' abisPath name (slot_address value) nd) as [nd' [abi|e|]];
      try (by split; [|intros; left]).
    destruct (install_shape name (slot_address value) abi contracts Hname) as [Hk Hin].
    destruct (install' name (slot_address value) abi contracts) as [contracts' [[]|e|]];
      simpl in *.
    + destruct (IH contracts' nd') as [Hk' Hin'].
      { intros n v Hnv. rewrite Hk. apply (Hkeys n v). by right. }
      split; [by rewrite Hk'|]. intros n v Hnv.
      destruct (Hin' n v Hnv) as [Hc|(abi' & old & Ho & ->)].
      * destruct (Hin n v Hc) as [?|[-> ->]]; [by left|].
        right. exists abi, value. split; [by left | done].
      * right. exists abi', old. split; [by right | done].
    + split; [done|]. intros n v Hnv.
      destruct (Hin n v Hnv) as [?|[-> ->]]; [by left|].
      right. exists abi, value. split; [by left | done].
    + split; [done|]. intros n v Hnv.
      destruct (Hin n v Hnv) as [?|[-> ->]]; [by left|].
      right. exists abi, value. split; [by left | done].
Qed.

(** The object keeps its shape. However the call ends, the object has the
    names it had, in the same order, and under each name either a value it
    had under that name or a contract object built on the address that was
    under that name. *)
Theorem getWeb3Contracts_shape (contracts : object) abisPath nd :
  let contracts' := (getWeb3Contracts w3 apikey http writable (Some contracts) abisPath nd).1.1 in
  map fst contracts' = map fst contracts /\
  forall name v, (name, v) ∈ contracts' ->
    (name, v) ∈ contracts \/
    exists abi old, (name, old) ∈ contracts /\ v = Built abi (slot_address old).
Proof.
  apply build_shape. intros name v Hin.
  apply list_elem_of_fmap. by exists (name, v).
Qed.

Lemma abi_for_cached abisPath name a nd abi :
  cached nd (abiPath_of abisPath name a) = Some abi ->
  abi_for' abisPath name a nd = (nd, Resolved abi).
Proof. intros Hc. unfold abi_for. by rewrite Hc. Qed.

Lemma build_cached abisPath (entries contracts : object) nd :
  (forall name v, (name, v) ∈ entries ->
     is_Some (cached nd (abiPath_of abisPath name (slot_address v)))) ->
  (build' abisPath entries contracts nd).1.2 = nd.
Proof.
  revert contracts. induction entries as [|[name value] rest IH];
    intros contracts Hall; simpl; [done|].
  destruct (Hall name value) as [abi Habi]; [by left|].
  rewrite (abi_for_cached _ _ _ _ _ Habi).
  destruct (install' name (slot_address value) abi contracts) as [contracts' [[]|e|]];
    simpl; try done.
  apply IH. intros n v Hnv. apply Hall. by right.
Qed.

(** A full cache. When the file of every entry is there and parses, the call
    sends no request, writes no file and logs nothing, with or without an
    API key and whatever the network would answer. *)
Theorem getWeb3Contracts_cached (contracts : object) abisPath nd :
  (forall name v, (name, v) ∈ contracts ->
     is_Some (cached nd (abiPath_of (default defaultAbisPath abisPath) name (slot_address v)))) ->
  (getWeb3Contracts w3 apikey http writable (Some contracts) abisPath nd).1.2 = nd.
Proof. apply build_cached. Qed.

(** What [abi_for] leaves on the disk: a cached path stays cached, and the
    path of an entry whose ABI was obtained is cached. *)
Lemma abi_for_keeps abisPath name a nd path :
  round_trip apikey http ->
  is_Some (cached nd path) ->
  is_Some (cached (abi_for' abisPath name a nd).1 path).
Proof.
  intros Hrt Hc. unfold abi_for.
  destruct (cached nd (abiPath_of abisPath name a)); [done|].
  destruct (getContractAbi apikey http a).2 as [abi|e|] eqn:Ef; simpl; try done.
  destruct (writable (abiPath_of abisPath name a)); simpl; [|done].
  unfold cached in *. simpl.
  destruct (decide (abiPath_of abisPath name a = path)) as [->|Hne].
  - rewrite lookup_insert_eq. simpl. rewrite (Hrt a abi Ef). by eexists.
  - by rewrite lookup_insert_ne.
Qed.

Lemma abi_for_resolved abisPath name a nd nd' abi :
  round_trip apikey http ->
  abi_for' abisPath name a nd = (nd', Resolved abi) ->
  is_Some (cached nd' (abiPath_of abisPath name a)).
Proof.
  intros Hrt. unfold abi_for.
  destruct (cached nd (abiPath_of abisPath name a)) as [abi'|] eqn:Ec.
  { intros [= <- _]. by eexists. }
  destruct (getContractAbi apikey http a).2 as [abi'|e|] eqn:Ef; simpl; try done.
  destruct (writable (abiPath_of abisPath name a)); simpl; [|done].
  intros [= <- _]. unfold cached. simpl. rewrite lookup_insert_eq. simpl.
  rewrite (Hrt a abi' Ef). by eexists.
Qed.

Lemma build_keeps abisPath (entries contracts : object) nd path :
  round_trip apikey http ->
  is_Some (cached nd path) ->
  is_Some (cached (build' abisPath entries contracts nd).1.2 path).
Proof.
  intros Hrt. revert contracts nd. induction entries as [|[name value] rest IH];
    intros contracts nd Hc; simpl; [done|].
  pose proof (abi_for_keeps abisPath name (slot_address value) nd path Hrt Hc) as Hk.
  destruct (abi_for' abisPath name (slot_address value) nd) as [nd' [abi|e|]];
    simpl in *; try done.
  destruct (install' name (slot_address value) abi contracts) as [contracts' [[]|e|]];
    simpl; try done.
  by apply IH.
Qed.

Lemma build_resolved_cached abisPath (entries contracts : object) nd :
  round_trip apikey http ->
  (build' abisPath entries contracts nd).2 = Resolved tt ->
  forall name v, (name, v) ∈ entries ->
    is_Some (cached (build' abisPath entries contracts nd).1.2
               (abiPath_of abisPath name (slot_address v))).
Proof.
  intros Hrt. revert contracts nd. induction entries as [|[name value] rest IH];
    intros contracts nd Hr n v Hin; simpl in *.
  { by apply elem_of_nil in Hin. }
  pose proof (abi_for_resolved abisPath name (slot_address value) nd) as Hres.
  destruct (abi_for' abisPath name (slot_address value) nd) as [nd' [abi|e|]];
    simpl in *; try done.
  specialize (Hres nd' abi Hrt eq_refl).
  destruct (install' name (slot_address value) abi contracts) as [contracts' [[]|e|]];
    simpl in *; try done.
  apply elem_of_cons in Hin as [[= -> ->]|Hin].
  - by apply build_keeps.
  - by apply IH.
Qed.

End ContractsFacts.

(** A warm cache. Provided [JSON.parse] reads back what [JSON.stringify]
    writes of the ABIs fetched, after a call that resolved, a later call for the same names and
    addresses, on the files the first call left, finds every ABI cached: it
    sends no request, writes no file and logs nothing, whatever the key and
    the network are then. *)
Theorem getWeb3Contracts_warm `{Libraries} w3 apikey http writable
    w3' apikey' http' writable' (contracts : object) abisPath nd :
  round_trip apikey http ->
  let first := getWeb3Contracts w3 apikey http writable (Some contracts) abisPath nd in
  first.2 = Resolved tt ->
  (getWeb3Contracts w3' apikey' http' writable' (Some contracts) abisPath first.1.2).1.2
  = first.1.2.
Proof.
  intros Hrt first Hr. apply build_cached. intros name v Hin.
  by apply build_resolved_cached.
Qed.

(** A cache that cannot be written. When the ABI of the first entry is not
    cached and BscScan returns it, but the file cannot be written, the call
    fails with the error that says the ABI could not be retrieved: the
    request was sent, the object is as it was and no file has changed. *)
Theorem getWeb3Contracts_unwritable `{Libraries} w3 apikey http writable
    name value (rest : object) abisPath nd abi :
  let path := abiPath_of (default defaultAbisPath abisPath) name (slot_address value) in
  cached nd path = None ->
  (getContractAbi apikey http (slot_address value)).2 = Resolved abi ->
  writable path = false ->
  let out := getWeb3Contracts w3 apikey http writable (Some ((name, value) :: rest))
               abisPath nd in
  out.2 = Failed (not_retrieved name (slot_address value)) /\
  out.1.1 = (name, value) :: rest /\
  files out.1.2 = files nd /\
  sent out.1.2 = sent nd ++ (getContractAbi apikey http (slot_address value)).1 /\
  (getContractAbi apikey http (slot_address value)).1 <> [].
Proof.
  intros path Hc Hf Hw. unfold getWeb3Contracts. simpl. unfold abi_for.
  fold path. rewrite Hc, Hf, Hw. simpl. repeat split.
  unfold getContractAbi, bscScan in *.
  destruct (isHexStrict (slot_address value)); simpl in *; [|done].
  by destruct apikey.
Qed.

(** ** Properties of sendRawJsonRpcMessage *)

(** What is sent. Nothing is sent unless the provider is an HTTP provider
    with a host that [https.request] accepts: the promise is then rejected
    with the exception of [toWeb3], with the error of an unsupported endpoint
    or with the exception of [https.request], which refuses an http host.
    Otherwise one POST goes to that host, marked as JSON, carrying a text
    message as it is and an object as [JSON.stringify] writes it. *)
Theorem sendRawJsonRpcMessage_request `{Libraries} target message http :
  ((forall host, target = inr (HttpProvider (Some host)) -> https_request host <> None) ->
     (sendRawJsonRpcMessage target message http).1 = [] /\
     exists e, (sendRawJsonRpcMessage target message http).2 = Failed e /\
       (target = inl e \/
        e = Error "sendRawJsonRpcMessage only supports HTTP(s) web3 endpoints" \/
        exists host, target = inr (HttpProvider (Some host)) /\
                     https_request host = Some e)) /\
  (forall host, target = inr (HttpProvider (Some host)) -> https_request host = None ->
     (sendRawJsonRpcMessage target message http).1 =
       [Request "POST" host [] [("content-type", "application/json")]
          match message with
          | MessageObject j => JSON_stringify j 0
          | MessageText s => s
          end]).
Proof.
  split.
  - intros Hne. destruct target as [e|[[host|]|]]; simpl.
    + split; [done|]. exists e. split; [done | by left].
    + specialize (Hne host eq_refl).
      destruct (https_request host) as [e|] eqn:E; [|done].
      split; [done|]. exists e. split; [done|]. right. right. by exists host.
    + split; [done|]. eexists. split; [done | right; by left].
    + split; [done|]. eexists. split; [done | right; by left].
  - intros host -> Hacc. simpl. by rewrite Hacc.
Qed.

(** How the promise ends on an HTTP provider. When [https.request] refuses
    the host, as it does for an http URL, the promise is rejected with its
    exception, whatever the endpoint would answer. Otherwise the promise
    resolves with what the body of the response parses to, whatever the
    status code is; it is rejected with the error of the request when the
    connection fails; it never settles when the body is not JSON. *)
Theorem sendRawJsonRpcMessage_outcome `{Libraries} host message http :
  let req := Request "POST" host [] [("content-type", "application/json")]
               (message_text message) in
  let sent := (sendRawJsonRpcMessage (inr (HttpProvider (Some host))) message http).1 in
  let out := (sendRawJsonRpcMessage (inr (HttpProvider (Some host))) message http).2 in
  (forall e, https_request host = Some e -> sent = [] /\ out = Failed e) /\
  (https_request host = None ->
     sent = [req] /\
     (forall v, out = Resolved v <->
        exists statusCode chunks, http req = Answered statusCode chunks /\
          JSON_parse (String.concat "" chunks) = Some v) /\
     (forall e, out = Failed e <-> http req = Unanswered e) /\
     (out = Hung <->
        exists statusCode chunks, http req = Answered statusCode chunks /\
          JSON_parse (String.concat "" chunks) = None)).
Proof.
  simpl. split; [by intros e -> |]. intros ->. split; [done|]. simpl.
  destruct (http _) as [e|statusCode chunks]; rewrite ?received_concat.
  - split; [|split].
    + intros v. split; [done|]. by intros (? & ? & ? & _).
    + intros e'. split; by intros [= ->].
    + split; [done|]. by intros (? & ? & ? & _).
  - destruct (JSON_parse (String.concat "" chunks)) as [v|] eqn:E.
    + split; [|split].
      * intros v'. split.
        -- intros [= <-]. by exists statusCode, chunks.
        -- intros (? & ? & [= <- <-] & Hp). congruence.
      * intros e. by split.
      * split; [done|]. intros (? & ? & [= <- <-] & Hp). congruence.
    + split; [|split].
      * intros v'. split; [done|]. intros (? & ? & [= <- <-] & Hp). congruence.
      * intros e. by split.
      * split; [|done]. intros _. by exists statusCode, chunks.
Qed.

(** An http endpoint and an https endpoint that answer alike. *)
Example sendRawJsonRpcMessage_http_host :
  @sendRawJsonRpcMessage http_only (inr (HttpProvider (Some "http://localhost:8545")))
    (MessageText "{}") (fun _ => Answered 200 ["[]"])
  = ([], Failed (TypeError ("Protocol " +:+ quoted "http:" +:+
                           " not supported. Expected " +:+ quoted "https:"))) /\
  @sendRawJsonRpcMessage http_only (inr (HttpProvider (Some "https://node.example")))
    (MessageText "{}") (fun _ => Answered 200 ["[]"])
  = ([Request "POST" "https://node.example" [] [("content-type", "application/json")] "{}"],
     Resolved (JArr [])).
Proof. by vm_compute. Qed.

(** ** What a failing call leaves in the object *)

Lemma assign_untouched name value (contracts : object) k v :
  k <> name -> (k, v) ∈ contracts -> (k, v) ∈ assign name value contracts.
Proof.
  intros Hne. induction contracts as [|[k' v'] rest IH]; simpl.
  - intros Hin. by apply elem_of_nil in Hin.
  - destruct (String.eqb_spec k' name) as [->|Hne'].
    + intros [[= -> ->]|Hin]%elem_of_cons; [done | by right].
    + intros [->|Hin]%elem_of_cons; [by left | right; by apply IH].
Qed.

Lemma build_untouched `{Libraries} w3 apikey http writable abisPath
    (entries contracts : object) nd k v :
  k ∉ map fst entries ->
  (k, v) ∈ contracts ->
  (k, v) ∈ (build w3 apikey http writable abisPath entries contracts nd).1.1.
Proof.
  revert contracts nd. induction entries as [|[name value] rest IH];
    intros contracts nd Hk Hin; simpl; [done|].
  simpl in Hk. apply not_elem_of_cons in Hk as [Hne Hk].
  destruct (abi_for apikey http writable abisPath name (slot_address value) nd)
    as [nd' [abi|e|]]; simpl; try done.
  assert (Hin' : (k, v) ∈ (install w3 name (slot_address value) abi contracts).1).
  { unfold install. destruct abi; try done;
      (destruct w3; try done; destruct (Contract_new _ _); try done;
       by apply assign_untouched). }
  destruct (install w3 name (slot_address value) abi contracts) as [contracts' [[]|e|]];
    simpl in *; try done.
  by apply IH.
Qed.

(** A call that fails late has changed the object. When the ABI of the first
    entry is cached and its contract object is built, that contract object
    is in the caller's object however the call ends, also when a later entry
    makes it fail. *)
Theorem getWeb3Contracts_partial `{Libraries} w3 apikey http writable
    name value (rest : object) abisPath nd abi id :
  name ∉ map fst rest ->
  cached nd (abiPath_of (default defaultAbisPath abisPath) name (slot_address value))
    = Some abi ->
  abi <> JNull ->
  w3 = Instance id ->
  Contract_new abi (slot_address value) = None ->
  (name, Built abi (slot_address value)) ∈
    (getWeb3Contracts w3 apikey http writable (Some ((name, value) :: rest)) abisPath nd).1.1.
Proof.
  intros Hname Hc Hnull -> Hnew. unfold getWeb3Contracts. simpl.
  rewrite (abi_for_cached _ _ _ _ _ _ _ _ Hc). unfold install. rewrite Hnew.
  destruct abi; try done; simpl; rewrite String.eqb_refl;
    (apply build_untouched; [done | by left]).
Qed.

(** ** The theorems at concrete inputs *)

Lemma beforeAll_once_witness :
  utilsReady (@Setup.beforeAll http_only (loaded (Instance 3))).1 = true /\
  @Setup.beforeAll http_only (@Setup.beforeAll http_only (loaded (Instance 3))).1
    = ((@Setup.beforeAll http_only (loaded (Instance 3))).1, inr tt) /\
  forall A (exportValue : St A),
    @Setup.exported http_only A exportValue (@Setup.beforeAll http_only (loaded (Instance 3))).1
    = exportValue (@Setup.beforeAll http_only (loaded (Instance 3))).1.
Proof.
  apply (@beforeAll_once http_only (loaded (Instance 3))). reflexivity.
Defined.

Lemma exported_setup_failure_witness :
  (forall A (exportValue : St A),
     @Setup.exported http_only A exportValue (loaded Nullish) =
       (Utils false Nullish Nullish [] ([] ++ ["Setting up web3-utils"]),
        inl (Error "Couldn't get web3"))) /\
  (Error "Couldn't get web3" = Error "Couldn't get web3" \/
   exists url, Nullish = Endpoint url /\
               @Web3_new http_only url = Some (Error "Couldn't get web3")).
Proof.
  apply (@exported_setup_failure http_only (loaded Nullish) (Error "Couldn't get web3")).
  reflexivity.
Defined.

Lemma exported_waitForTx_outcome_witness :
  (forall e, (@Setup.beforeAll http_only (loaded (Instance 3))).2 = inl e ->
     (@exported_waitForTx http_only (VString "FAST") (loaded (Instance 3))).2 = inl e) /\
  ((@Setup.beforeAll http_only (loaded (Instance 3))).2 = inr tt ->
     (forall s, VString "FAST" = VString s -> @toLowerCase http_only s = "fast" ->
        (@exported_waitForTx http_only (VString "FAST") (loaded (Instance 3))).2
          = inr opened) /\
     (forall s, VString "FAST" = VString s -> @toLowerCase http_only s <> "fast" ->
        (@exported_waitForTx http_only (VString "FAST") (loaded (Instance 3))).2
          = inr (failed (UnsupportedMode (@toLowerCase http_only s))))).
Proof.
  apply (@exported_waitForTx_outcome http_only (VString "FAST") (loaded (Instance 3))).
  intros Hready. discriminate Hready.
Defined.

Lemma liquidity_functions_throw_witness :
  @Setup.exported http_only _ (getLiquidityPairAddress (VString "0xa") (VString "0xb"))
    ready_module = (ready_module, inl (Error "Missing implementation")) /\
  @Setup.exported http_only _ (calculateLiquidityPairAddress (VString "0xa") (VString "0xb"))
    ready_module = (ready_module, inl (Error "Missing implementation")) /\
  @Setup.exported http_only _ (liquidityPairHasLiquidity (VString "0xa")) ready_module
    = (ready_module, inl (Error "Missing implementation")) /\
  (VString "0xb" <> VUndefined ->
   @Setup.exported http_only _ (tokenHasLiquidity (VString "0xa") (VString "0xb"))
     ready_module = (ready_module, inl (Error "Missing implementation"))) /\
  (exists message,
   @Setup.exported http_only _ (tokenHasLiquidity (VString "0xa") VUndefined) ready_module
     = (ready_module, inl (TypeError message))).
Proof.
  apply (proj1 (@liquidity_functions_throw http_only ready_module
                  (VString "0xa") (VString "0xb"))).
  reflexivity.
Defined.

(** A page that does not exist, and a missing key. *)
Example bscScan_rejections_example :
  (@getContractAbi http_only (Some "KEY") bscscan_404 (Address "0xabc")).2
    = Failed (Error "Error when getting the contract ABI") /\
  (@getContractSource http_only (Some "KEY") bscscan_404 (Address "0xabc")).2
    = Failed (Error "Error when getting the contract ABI") /\
  (@getContractAbi http_only None bscscan_ok (Address "0xabc")).2
    = Failed (Error "Env variable BSCSCAN_API_KEY is null").
Proof. by vm_compute. Qed.

Lemma bscScan_hangs_witness :
  ((exists e, bscscan_html (requestUrl "getabi" (Address "0xabc") "KEY") = Unanswered e) \/
   (exists chunks,
      bscscan_html (requestUrl "getabi" (Address "0xabc") "KEY") = Answered 200 chunks /\
      @JSON_parse http_only (String.concat "" chunks) = None) ->
   (@getContractAbi http_only (Some "KEY") bscscan_html (Address "0xabc")).2 = Hung) /\
  ((exists e, bscscan_html (requestUrl "getsourcecode" (Address "0xabc") "KEY")
              = Unanswered e) \/
   (exists chunks,
      bscscan_html (requestUrl "getsourcecode" (Address "0xabc") "KEY")
        = Answered 200 chunks /\
      @JSON_parse http_only (String.concat "" chunks) = None) ->
   (@getContractSource http_only (Some "KEY") bscscan_html (Address "0xabc")).2 = Hung).
Proof.
  apply (@bscScan_hangs http_only "KEY" bscscan_html (Address "0xabc")). reflexivity.
Defined.

Lemma getMethodAbiBySignature_first_witness :
  (@getMethodAbiBySignature http_only three_entries "0x2" ready_module).1 = ready_module /\
  (forall entry,
     (@getMethodAbiBySignature http_only three_entries "0x2" ready_module).2
       = inr (Some entry) <->
     exists i, abi_entries three_entries !! i = Some entry /\
       @encodeFunctionSignature http_only entry = inr "0x2" /\
       forall j other, (j < i)%nat -> abi_entries three_entries !! j = Some other ->
         exists selector, @encodeFunctionSignature http_only other = inr selector /\
                          selector <> "0x2") /\
  ((@getMethodAbiBySignature http_only three_entries "0x2" ready_module).2 = inr None <->
     forall entry, entry ∈ abi_entries three_entries ->
       exists selector, @encodeFunctionSignature http_only entry = inr selector /\
                        selector <> "0x2") /\
  @getMethodAbiBySignature http_only (AbiContract (abi_entries three_entries)) "0x2"
    ready_module
  = @getMethodAbiBySignature http_only three_entries "0x2" ready_module.
Proof.
  apply (@getMethodAbiBySignature_first http_only three_entries "0x2" ready_module 0).
  reflexivity.
Defined.

Lemma disk_with_token_cached name v :
  (name, v) ∈ one_contract ->
  is_Some (@cached http_only disk_with_token
             (@abiPath_of http_only (default defaultAbisPath None) name (slot_address v))).
Proof.
  intros [= -> ->]%list_elem_of_singleton. by eexists.
Qed.

Lemma getWeb3Contracts_cached_witness :
  (@getWeb3Contracts http_only (Instance 0) None bscscan_html (fun _ => false)
     (Some one_contract) None disk_with_token).1.2 = disk_with_token.
Proof.
  apply (@getWeb3Contracts_cached http_only (Instance 0) None bscscan_html (fun _ => false)
           one_contract None disk_with_token).
  apply disk_with_token_cached.
Defined.

Lemma bscscan_ok_round_trip : @round_trip http_only (Some "KEY") bscscan_ok.
Proof.
  intros a abi. unfold getContractAbi, bscScan.
  destruct (@isHexStrict http_only a); simpl; [|done]. by intros [= <-].
Qed.

Lemma getWeb3Contracts_warm_witness :
  (@getWeb3Contracts http_only (Instance 0) None bscscan_html (fun _ => false)
     (Some one_contract) None
     (@getWeb3Contracts http_only (Instance 0) (Some "KEY") bscscan_ok (fun _ => true)
        (Some one_contract) None (Node ∅ [] [])).1.2).1.2
  = (@getWeb3Contracts http_only (Instance 0) (Some "KEY") bscscan_ok (fun _ => true)
       (Some one_contract) None (Node ∅ [] [])).1.2.
Proof.
  apply (@getWeb3Contracts_warm http_only (Instance 0) (Some "KEY") bscscan_ok
           (fun _ => true) (Instance 0) None bscscan_html (fun _ => false)
           one_contract None (Node ∅ [] [])).
  - apply bscscan_ok_round_trip.
  - reflexivity.
Defined.

Lemma getWeb3Contracts_unwritable_witness :
  (@getWeb3Contracts http_only (Instance 0) (Some "KEY") bscscan_ok (fun _ => false)
     (Some (("token", Given (Address "0xabc")) :: [])) None (Node ∅ [] [])).2
    = Failed (not_retrieved "token" (Address "0xabc")) /\
  (@getWeb3Contracts http_only (Instance 0) (Some "KEY") bscscan_ok (fun _ => false)
     (Some (("token", Given (Address "0xabc")) :: [])) None (Node ∅ [] [])).1.1
    = ("token", Given (Address "0xabc")) :: [] /\
  files (@getWeb3Contracts http_only (Instance 0) (Some "KEY") bscscan_ok (fun _ => false)
     (Some (("token", Given (Address "0xabc")) :: [])) None (Node ∅ [] [])).1.2 = ∅ /\
  sent (@getWeb3Contracts http_only (Instance 0) (Some "KEY") bscscan_ok (fun _ => false)
     (Some (("token", Given (Address "0xabc")) :: [])) None (Node ∅ [] [])).1.2
    = [] ++ (@getContractAbi http_only (Some "KEY") bscscan_ok (Address "0xabc")).1 /\
  (@getContractAbi http_only (Some "KEY") bscscan_ok (Address "0xabc")).1 <> [].
Proof.
  apply (@getWeb3Contracts_unwritable http_only (Instance 0) (Some "KEY") bscscan_ok
           (fun _ => false) "token" (Given (Address "0xabc")) [] None (Node ∅ [] [])
           (JArr [])); reflexivity.
Defined.

Lemma getWeb3Contracts_partial_witness :
  ("token", Built (JArr []) (Address "0xabc")) ∈
    (@getWeb3Contracts http_only (Instance 0) None bscscan_html (fun _ => false)
       (Some two_contracts) None disk_with_token).1.1.
Proof.
  apply (@getWeb3Contracts_partial http_only (Instance 0) None bscscan_html (fun _ => false)
           "token" (Given (Address "0xabc")) [("other", Given NullAddress)] None
           disk_with_token (JArr []) 0).
  - apply not_elem_of_cons. split; [done | apply not_elem_of_nil].
  - reflexivity.
  - done.
  - reflexivity.
  - reflexivity.
Defined.

Example getWeb3Contracts_partial_fails :
  (@getWeb3Contracts http_only (Instance 0) None bscscan_html (fun _ => false)
     (Some two_contracts) None disk_with_token).2
  = Failed (not_retrieved "other" NullAddress).
Proof. reflexivity. Qed.

(** ** Further properties of the BscScan functions and of the feed *)

(** When [getContractSource] resolves. The promise resolves, with a source or
    with [undefined], exactly when the checks pass, the response has status
    code 200, its body parses to a value whose [status] is the string "1",
    the [result] of that value has a first element, and [SourceCode] can be
    read of that element; the value of the promise is that [SourceCode]. *)
Theorem getContractSource_resolves `{Libraries} apikey http a code :
  (getContractSource apikey http a).2 = Resolved code <->
  isHexStrict a = true /\
  exists key chunks resp result first,
    apikey = Some key /\
    http (requestUrl "getsourcecode" a key) = Answered 200 chunks /\
    JSON_parse (String.concat "" chunks) = Some resp /\
    get_field resp "status" = inr (Some (JStr "1")) /\
    get_field resp "result" = inr (Some result) /\
    get_first result = inr (Some first) /\
    get_field first "SourceCode" = inr code.
Proof.
  unfold getContractSource. split.
  - intros Hr.
    destruct (bscScan_cases "getsourcecode" source_of_body apikey http a)
      as [[_ E]|[(_ & _ & E)|(key & Hhex & -> & [(e & _ & E)|[(sc & ch & _ & _ & E)|(chunks & Hhttp & E)]])]];
      rewrite E in Hr; simpl in Hr; try done.
    split; [done|]. exists key, chunks. unfold source_of_body in Hr.
    destruct (JSON_parse (String.concat "" chunks)) as [resp|]; [|done].
    destruct (get_field resp "status") as [|status] eqn:Es; [done|].
    destruct (is_string_spec status "1") as [->|Hno]; [|by rewrite Hno in Hr].
    simpl in Hr.
    destruct (get_field resp "result") as [|[result|]] eqn:Er; try done.
    destruct (get_first result) as [|[first|]] eqn:Ef; try done.
    destruct (get_field first "SourceCode") as [|code'] eqn:Ec; [done|].
    injection Hr as ->. by exists resp, result, first.
  - intros (Hhex & key & chunks & resp & result & first & -> & Hhttp & Hp & Hs & Hres & Hf & Hc).
    unfold bscScan. rewrite Hhex, Hhttp. simpl.
    rewrite received_concat. unfold source_of_body. rewrite Hp, Hs. simpl.
    by rewrite Hres, Hf, Hc.
Qed.

Example getContractSource_example :
  (@getContractSource source_library (Some "KEY") bscscan_source (Address "0xabc")).2
  = Resolved (Some (JStr "contract C {}")).
Proof. reflexivity. Qed.

Lemma run_subscribes s evs : subscribes (run s evs) = subscribes s.
Proof.
  revert s. induction evs as [|e evs IH]; intros s; [done|].
  rewrite run_cons, IH.
  destruct e as [h|err|k r|k r]; simpl.
  - by destruct (listening s).
  - by destruct (listening s).
  - destruct (tasks s !! k) as [[| |]|]; try done. by destruct r as [err|[t|]].
  - destruct (tasks s !! k) as [[|t|]|]; try done. by destruct r as [err|[|]].
Qed.

Lemma run_runs evs :
  (length (tasks (run opened evs)) <= length (emitted evs))%nat /\
  (unsubscribes (run opened evs) = 0%nat ->
   length (tasks (run opened evs)) = length (emitted evs)) /\
  forall k h, tasks (run opened evs) !! k = Some (AwaitTx h) -> emitted evs !! k = Some h.
Proof.
  induction evs as [|e evs (IHle & IHlen & IHtx)] using rev_ind.
  { split; [done|]. split; [done|]. intros k h E. done. }
  pose proof (run_subscribes opened evs) as Hsub.
  rewrite run_snoc. set (s := run opened evs) in *.
  unfold emitted in *. rewrite omap_app.
  destruct e as [h|err|k' r|k' r]; simpl.
  - unfold listening. rewrite Hsub. simpl.
    destruct (Nat.eqb_spec (unsubscribes s) 0) as [Hu|Hu]; simpl.
    + specialize (IHlen Hu).
      split; [rewrite !length_app; simpl; lia|].
      split; [intros _; rewrite !length_app; simpl; lia|].
      intros k h' [E|[Hk E]]%lookup_app_Some.
      * apply lookup_app_l_Some. by apply IHtx.
      * apply list_lookup_singleton_Some in E as [Hz [= ->]].
        rewrite lookup_app_r by lia. rewrite <- IHlen.
        by replace (k - length (tasks s))%nat with 0%nat by lia.
    + split; [rewrite length_app; simpl; lia|]. split; [done|].
      intros k h' E. apply lookup_app_l_Some. by apply IHtx.
  - rewrite app_nil_r. by destruct (listening s).
  - rewrite app_nil_r.
    destruct (tasks s !! k') as [[h0| |]|] eqn:E; try done.
    destruct r as [err|[t'|]]; simpl; unfold set_task;
      (split; [by rewrite length_insert|]);
      (split; [by rewrite length_insert|]);
      intros k h' [(-> & E' & _)|[_ E']]%list_lookup_insert_Some; try done;
      by apply IHtx.
  - rewrite app_nil_r.
    destruct (tasks s !! k') as [[|t'|]|] eqn:E; try done.
    destruct r as [err|[|]]; simpl; unfold set_task;
      (split; [by rewrite length_insert|]);
      (split; [rewrite length_insert; try done|]);
      try (intros k h' [(-> & E' & _)|[_ E']]%list_lookup_insert_Some; try done;
           by apply IHtx).
Qed.

(** One run of the listener per hash. While the session is subscribed every
    ['data'] event starts a run of the listener, also for a hash the feed has
    emitted before: until the first [unsubscribe()] there are as many runs as
    hashes emitted, never more afterwards, and the run that waits for
    [getTransaction] at index [k] asked for the [k]-th hash emitted. *)
Theorem watch_one_run_per_hash evs :
  (length (tasks (run opened evs)) <= length (emitted evs))%nat /\
  (unsubscribes (run opened evs) = 0%nat ->
   length (tasks (run opened evs)) = length (emitted evs)) /\
  (forall k h, tasks (run opened evs) !! k = Some (AwaitTx h) -> emitted evs !! k = Some h) /\
  (forall h, tasks (run opened (evs ++ [Data h])) =
     if (unsubscribes (run opened evs) =? 0)%nat
     then tasks (run opened evs) ++ [AwaitTx h]
     else tasks (run opened evs)).
Proof.
  destruct (run_runs evs) as (Hle & Hlen & Htx).
  do 3 (split; [done|]).
  intros h. rewrite run_snoc. simpl. unfold listening.
  rewrite run_subscribes. simpl. by destruct (unsubscribes (run opened evs) =? 0)%nat.
Qed.

(** The same hash emitted twice starts two runs; a hash emitted after the
    first match starts none. *)
Example watch_same_hash_twice :
  tasks (run opened [Data "h"; Data "h"]) = [AwaitTx "h"; AwaitTx "h"] /\
  tasks (run opened (three_hashes ++ [Data "h4"])) = tasks (run opened three_hashes).
Proof. by vm_compute. Qed.
